(** * forum: session manager, vote toggler, auth gate and text validator

    A shallow embedding of the Go sources
      - internal/services/likes.go     (LikesService)
      - internal/services/session.go   (SessionService)
      - internal/middleware/auth.go    (AuthMiddleware)
      - internal/validation/validation.go
      - internal/handlers/likes.go     (LikesHandler)
      - internal/handlers/auth.go      (Logout)
      - cmd/server/main.go             (handlePostRoutes, handleCommentRoutes)
    over the SQLite schema of internal/database/db.go.

    The store is a record of finite maps, one per table, keyed by the
    column (or pair of columns) the schema declares UNIQUE.  Every
    service method is a computation in a small state monad over a
    connection, which holds the tables and the log of the statements that
    were sent to the database, in order. *)

From stdpp Require Import gmap strings list fin_maps.
From Stdlib Require Import ZArith Lia Ascii.

Local Open Scope Z_scope.

(** ** Go values shared by the services *)

(** Go's [error] values that the modelled code creates or receives. *)
Inductive error : Type :=
| ErrNoRows                              (* sql.ErrNoRows *)
| ErrConstraint (what : string)          (* sqlite3: constraint failed *)
| ErrScan (what : string)                (* database/sql: Scan conversion *)
| ErrNew (msg : string)                  (* errors.New, fmt.Errorf("...") *)
| ErrWrap (msg : string) (cause : error) (* fmt.Errorf("...: %w", err) *)
| ErrRand                                (* crypto/rand.Read failed *)
| ErrNoCookie.                           (* http.ErrNoCookie *)

(** A column value as the driver hands it to [Scan]. *)
Inductive value : Type :=
| VNull
| VInt (n : Z)
| VBool (b : bool)
| VText (s : string)
| VTime (t : Z).

(** [sql.NullBool] and [sql.NullString]. *)
Record NullBool : Type := mkNullBool { Bool : bool; Valid : bool }.
Record NullString : Type := mkNullString { String_ : string; SValid : bool }.

(** [models.User]; time stamps are seconds on the clock of the store. *)
Record User : Type := mkUser {
  ID : Z;
  UUID : string;
  Username : string;
  Email : string;
  PasswordHash : string;
  AvatarURL : string;
  IsAdmin : bool;
  CreatedAt : Z;
  UpdatedAt : Z
}.

(** ** The store: internal/database/db.go *)

Module Store.

(** A row of [users], without its key [id].  [avatar_url], [is_admin]
    and [created_at] are declared without NOT NULL. *)
Record UserRow : Type := mkUserRow {
  uuid : string;
  username : string;
  email : string;
  password_hash : string;
  avatar_url : option string;
  is_admin : option bool;
  created_at : option Z
}.

(** [*time.Location]: the offset from UTC that the zone has at an
    instant, in seconds east of UTC.  Instants are whole seconds since the
    epoch, and so is a reading of CURRENT_TIMESTAMP, which is in UTC. *)
Definition Location : Type := Z → Z.

(** The wall clock of the zone at an instant: the reading that
    [t.In(loc).Format("2006-01-02 15:04:05")] spells, in seconds. *)
Definition wallClock (loc : Location) (t : Z) : Z := t + loc t.

(** A row of [sessions], without its key [token] (TEXT UNIQUE NOT NULL).

    The column [expires_at] holds the text that go-sqlite3 writes for a
    [time.Time] argument, in the form ["2006-01-02 15:04:05.999999999-07:00"]:
    the wall clock in the zone of the value, then the fraction of the
    second and the offset of the zone.  SQLite does not read it as a time:
    it compares the text, byte by byte, with CURRENT_TIMESTAMP, which is
    the 19 characters ["YYYY-MM-DD HH:MM:SS"] of the wall clock in UTC.
    Texts of this fixed width compare as the readings they spell, so the
    field keeps the reading that the first 19 characters of the stored
    text spell, in seconds; what follows them in the stored text only
    makes it the longer, hence the greater, of two texts that agree on
    the 19 characters. *)
Record SessionRow : Type := mkSessionRow {
  user_id : Z;
  expires_at : Z
}.

(** The tables.  [post_likes] and [comment_likes] carry
    UNIQUE(user_id, target_id) and [is_like BOOLEAN NOT NULL], hence a map
    from the pair to the flag. *)
Record DB : Type := mkDB {
  users : gmap Z UserRow;
  sessions : gmap string SessionRow;
  posts : gset Z;
  comments : gset Z;
  post_likes : gmap (Z * Z) bool;
  comment_likes : gmap (Z * Z) bool
}.

(** The two vote tables and the table each one refers to. *)
Inductive Target : Type := Post | Comment.

Definition targets (k : Target) (d : DB) : gset Z :=
  match k with Post => posts d | Comment => comments d end.

Definition votes (k : Target) (d : DB) : gmap (Z * Z) bool :=
  match k with Post => post_likes d | Comment => comment_likes d end.

Definition set_votes (k : Target) (m : gmap (Z * Z) bool) (d : DB) : DB :=
  match k with
  | Post => mkDB (users d) (sessions d) (posts d) (comments d) m (comment_likes d)
  | Comment => mkDB (users d) (sessions d) (posts d) (comments d) (post_likes d) m
  end.

Definition set_sessions (m : gmap string SessionRow) (d : DB) : DB :=
  mkDB (users d) m (posts d) (comments d) (post_likes d) (comment_likes d).

(** The SELECT statements of the services. *)
Inductive Query : Type :=
| SelectExists (k : Target) (id : Z)
    (* SELECT 1 FROM posts|comments WHERE id = ? LIMIT 1 *)
| SelectVote (k : Target) (u t : Z)
    (* SELECT is_like FROM post_likes WHERE user_id = ? AND post_id = ? *)
| SelectLikeCounts (p : Z)
    (* SELECT SUM(CASE WHEN is_like = TRUE ...), SUM(CASE WHEN is_like = FALSE ...)
       FROM post_likes WHERE post_id = ? *)
| SelectUserByToken (token : string).
    (* SELECT u.id, ... FROM users u JOIN sessions s ON u.id = s.user_id
       WHERE s.token = ? AND s.expires_at > CURRENT_TIMESTAMP *)

(** The INSERT, UPDATE and DELETE statements of the services. *)
Inductive Stmt : Type :=
| InsertVote (k : Target) (u t : Z) (is_like : bool)
| DeleteVote (k : Target) (u t : Z)
| UpdateVote (k : Target) (u t : Z) (is_like : bool)
| DeleteUserSessions (u : Z)
    (* DELETE FROM sessions WHERE user_id = ? *)
| InsertSession (token : string) (u : Z) (expires : Z)
    (* INSERT INTO sessions (token, user_id, expires_at, created_at)
       VALUES (?, ?, ?, CURRENT_TIMESTAMP); [expires] is the wall clock
       reading of the text bound for the third argument *)
| DeleteSession (token : string)
| DeleteExpiredSessions.

(** SQL's SUM: NULL over no rows. *)
Definition sql_sum (l : list Z) : value :=
  match l with
  | [] => VNull
  | _ => VInt (foldr Z.add 0 l)
  end.

(** The rows of a vote table for one target. *)
Definition vote_rows (t : Z) (m : gmap (Z * Z) bool) : list (Z * Z * bool) :=
  map_to_list (filter (λ kv : Z * Z * bool, kv.1.2 = t) m).

Definition opt_value {A} (f : A → value) (o : option A) : value :=
  match o with Some a => f a | None => VNull end.

(** The result set of a query; [now] is CURRENT_TIMESTAMP.  In
    [SelectUserByToken] the stored text of [expires_at] is greater than
    CURRENT_TIMESTAMP when it spells a later reading, and also when it
    spells the same one, being the longer text. *)
Definition query (now : Z) (q : Query) (d : DB) : list (list value) :=
  match q with
  | SelectExists k id =>
      if decide (id ∈ targets k d) then [[VInt 1]] else []
  | SelectVote k u t =>
      match votes k d !! (u, t) with
      | Some b => [[VBool b]]
      | None => []
      end
  | SelectLikeCounts p =>
      let rows := vote_rows p (post_likes d) in
      [[sql_sum ((λ r : Z * Z * bool, if r.2 then 1 else 0) <$> rows);
        sql_sum ((λ r : Z * Z * bool, if r.2 then 0 else 1) <$> rows)]]
  | SelectUserByToken token =>
      match sessions d !! token with
      | Some s =>
          if decide (now ≤ expires_at s) then
            match users d !! user_id s with
            | Some u =>
                [[VInt (user_id s); VText (uuid u); VText (username u);
                  VText (email u); opt_value VText (avatar_url u);
                  opt_value VBool (is_admin u); opt_value VTime (created_at u)]]
            | None => []
            end
          else []
      | None => []
      end
  end.

(** The effect of a statement.  The connection is opened with
    [_foreign_keys=on], so an insert checks the rows it refers to.  In
    [DeleteExpiredSessions] the stored text of [expires_at] is less than
    CURRENT_TIMESTAMP when it spells an earlier reading. *)
Definition exec (now : Z) (s : Stmt) (d : DB) : option error * DB :=
  match s with
  | InsertVote k u t b =>
      if decide (is_Some (votes k d !! (u, t))) then
        (Some (ErrConstraint "UNIQUE constraint failed"), d)
      else if decide (u ∈ dom (users d) ∧ t ∈ targets k d) then
        (None, set_votes k (<[(u, t) := b]> (votes k d)) d)
      else (Some (ErrConstraint "FOREIGN KEY constraint failed"), d)
  | DeleteVote k u t =>
      (None, set_votes k (delete (u, t) (votes k d)) d)
  | UpdateVote k u t b =>
      (None, set_votes k (alter (λ _, b) (u, t) (votes k d)) d)
  | DeleteUserSessions u =>
      (None, set_sessions
               (filter (λ kv : string * SessionRow, user_id kv.2 ≠ u) (sessions d)) d)
  | InsertSession token u expires =>
      if decide (is_Some (sessions d !! token)) then
        (Some (ErrConstraint "UNIQUE constraint failed: sessions.token"), d)
      else if decide (u ∈ dom (users d)) then
        (None, set_sessions (<[token := mkSessionRow u expires]> (sessions d)) d)
      else (Some (ErrConstraint "FOREIGN KEY constraint failed"), d)
  | DeleteSession token =>
      (None, set_sessions (delete token (sessions d)) d)
  | DeleteExpiredSessions =>
      (None, set_sessions
               (filter (λ kv : string * SessionRow, ¬ expires_at kv.2 < now) (sessions d)) d)
  end.

(** What was sent over the connection. *)
Inductive Op : Type :=
| OpQuery (q : Query)
| OpExec (s : Stmt).

(** [*sql.DB]: the tables and the log of operations, oldest first. *)
Record Conn : Type := mkConn {
  db : DB;
  log : list Op
}.

End Store.

Import Store.

(** ** database/sql over the store: a state monad on the connection

    A computation runs from the connection it is given to the one it
    leaves: the statements of one method or handler follow each other
    with no statement of another request in between.  The source opens no
    transaction, so what is proved of a run holds of a request that is
    served alone. *)

Definition M (A : Type) : Type := Conn → A * Conn.

#[global] Instance M_ret : MRet M := λ A a c, (a, c).

#[global] Instance M_bind : MBind M :=
  λ A B f m c, let '(a, c') := m c in f a c'.

Definition ret {A} (a : A) : M A := mret a.

(** [db.QueryRow(q, args...)]: the first row of the result, if any. *)
Definition QueryRow (now : Z) (q : Query) : M (option (list value)) :=
  λ c, (head (query now q (db c)), mkConn (db c) (log c ++ [OpQuery q])).

(** [db.Exec(s, args...)], keeping only the error. *)
Definition Exec (now : Z) (s : Stmt) : M (option error) :=
  λ c, let '(e, d) := exec now s (db c) in (e, mkConn d (log c ++ [OpExec s])).

(** [Row.Scan] into the destination types the services use: the error is
    [sql.ErrNoRows] on an empty result, a conversion error on NULL into a
    destination that cannot hold it. *)
Definition scan_int (v : value) : error + Z :=
  match v with
  | VInt n => inr n
  | VNull => inl (ErrScan "converting NULL to int is unsupported")
  | _ => inl (ErrScan "unsupported Scan into int")
  end.

Definition scan_bool (v : value) : error + bool :=
  match v with
  | VBool b => inr b
  | VInt n => if decide (n = 0) then inr false
              else if decide (n = 1) then inr true
              else inl (ErrScan "couldn't convert into bool")
  | VNull => inl (ErrScan "converting NULL to bool is unsupported")
  | _ => inl (ErrScan "unsupported Scan into bool")
  end.

Definition scan_string (v : value) : error + string :=
  match v with
  | VText s => inr s
  | VNull => inl (ErrScan "converting NULL to string is unsupported")
  | _ => inl (ErrScan "unsupported Scan into string")
  end.

Definition scan_time (v : value) : error + Z :=
  match v with
  | VTime t => inr t
  | VNull => inl (ErrScan "unsupported Scan, storing NULL into time.Time")
  | _ => inl (ErrScan "unsupported Scan into time.Time")
  end.

Definition scan_NullBool (v : value) : error + NullBool :=
  match v with
  | VNull => inr (mkNullBool false false)
  | _ => match scan_bool v with
         | inr b => inr (mkNullBool b true)
         | inl e => inl e
         end
  end.

Definition scan_NullString (v : value) : error + NullString :=
  match v with
  | VNull => inr (mkNullString EmptyString false)
  | VText s => inr (mkNullString s true)
  | _ => inl (ErrScan "unsupported Scan into NullString")
  end.

(** [QueryRow(...).Scan(&x)] for a single column. *)
Definition Scan1 {A} (conv : value → error + A) (row : option (list value)) : error + A :=
  match row with
  | None => inl ErrNoRows
  | Some [v] => conv v
  | Some _ => inl (ErrScan "wrong number of destination arguments")
  end.

(** ** internal/services/likes.go *)

Module LikesService.

Section Methods.

(** The time at which the method runs (no statement of this service
    reads it). *)
Variable now : Z.

(** postExists checks if a post with the given ID exists *)
Definition postExists (postID : Z) : M (bool * option error) :=
  row ← QueryRow now (SelectExists Post postID);
  match Scan1 scan_int row with
  | inl ErrNoRows => ret (false, None)
  | inl err => ret (false, Some err)
  | inr _ => ret (true, None)
  end.

(** commentExists checks if a comment with the given ID exists *)
Definition commentExists (commentID : Z) : M (bool * option error) :=
  row ← QueryRow now (SelectExists Comment commentID);
  match Scan1 scan_int row with
  | inl ErrNoRows => ret (false, None)
  | inl err => ret (false, Some err)
  | inr _ => ret (true, None)
  end.

(** LikePost toggles or sets a like on a post *)
Definition LikePost (userID postID : Z) : M (option error) :=
  '(exists_, err) ← postExists postID;
  match err with
  | Some err => ret (Some (ErrWrap "database error: " err))
  | None =>
    if negb exists_ then ret (Some (ErrNew "post not found"))
    else
      row ← QueryRow now (SelectVote Post userID postID);
      match Scan1 scan_NullBool row with
      | inl ErrNoRows => Exec now (InsertVote Post userID postID true)
      | inl err => ret (Some err)
      | inr currentVote =>
          if Valid currentVote && Bool currentVote
          then Exec now (DeleteVote Post userID postID)
          else Exec now (UpdateVote Post userID postID true)
      end
  end.

(** DislikePost toggles or sets a dislike on a post *)
Definition DislikePost (userID postID : Z) : M (option error) :=
  '(exists_, err) ← postExists postID;
  match err with
  | Some err => ret (Some (ErrWrap "database error: " err))
  | None =>
    if negb exists_ then ret (Some (ErrNew "post not found"))
    else
      row ← QueryRow now (SelectVote Post userID postID);
      match Scan1 scan_NullBool row with
      | inl ErrNoRows => Exec now (InsertVote Post userID postID false)
      | inl err => ret (Some err)
      | inr currentVote =>
          if Valid currentVote && negb (Bool currentVote)
          then Exec now (DeleteVote Post userID postID)
          else Exec now (UpdateVote Post userID postID false)
      end
  end.

(** LikeComment toggles or sets a like on a comment *)
Definition LikeComment (userID commentID : Z) : M (option error) :=
  '(exists_, err) ← commentExists commentID;
  match err with
  | Some err => ret (Some (ErrWrap "database error: " err))
  | None =>
    if negb exists_ then ret (Some (ErrNew "comment not found"))
    else
      row ← QueryRow now (SelectVote Comment userID commentID);
      match Scan1 scan_NullBool row with
      | inl ErrNoRows => Exec now (InsertVote Comment userID commentID true)
      | inl err => ret (Some err)
      | inr currentVote =>
          if Valid currentVote && Bool currentVote
          then Exec now (DeleteVote Comment userID commentID)
          else Exec now (UpdateVote Comment userID commentID true)
      end
  end.

(** DislikeComment toggles or sets a dislike on a comment *)
Definition DislikeComment (userID commentID : Z) : M (option error) :=
  '(exists_, err) ← commentExists commentID;
  match err with
  | Some err => ret (Some (ErrWrap "database error: " err))
  | None =>
    if negb exists_ then ret (Some (ErrNew "comment not found"))
    else
      row ← QueryRow now (SelectVote Comment userID commentID);
      match Scan1 scan_NullBool row with
      | inl ErrNoRows => Exec now (InsertVote Comment userID commentID false)
      | inl err => ret (Some err)
      | inr currentVote =>
          if Valid currentVote && negb (Bool currentVote)
          then Exec now (DeleteVote Comment userID commentID)
          else Exec now (UpdateVote Comment userID commentID false)
      end
  end.

(** GetPostLikeCounts returns like and dislike counts for a post.  [Scan]
    fills the destinations left to right and stops at the first column it
    cannot convert; the named results keep what was stored so far. *)
Definition GetPostLikeCounts (postID : Z) : M (Z * Z * option error) :=
  row ← QueryRow now (SelectLikeCounts postID);
  let '(likes, dislikes, err) :=
    match row with
    | None => (0, 0, Some ErrNoRows)
    | Some [v1; v2] =>
        match scan_int v1 with
        | inl e => (0, 0, Some e)
        | inr l =>
            match scan_int v2 with
            | inl e => (l, 0, Some e)
            | inr d => (l, d, None)
            end
        end
    | Some _ => (0, 0, Some (ErrScan "wrong number of destination arguments"))
    end in
  match err with
  | Some ErrNoRows => ret (0, 0, None)
  | _ => ret (likes, dislikes, err)
  end.

(** RemovePostVote removes a user's vote from a post *)
Definition RemovePostVote (userID postID : Z) : M (option error) :=
  Exec now (DeleteVote Post userID postID).

(** RemoveCommentVote removes a user's vote from a comment *)
Definition RemoveCommentVote (userID commentID : Z) : M (option error) :=
  Exec now (DeleteVote Comment userID commentID).

(** GetUserPostVote returns the user's vote on a post (nil = no vote,
    true = like, false = dislike) *)
Definition GetUserPostVote (userID postID : Z) : M (option bool * option error) :=
  row ← QueryRow now (SelectVote Post userID postID);
  match Scan1 scan_bool row with
  | inl ErrNoRows => ret (None, None)
  | inl err => ret (None, Some err)
  | inr isLike => ret (Some isLike, None)
  end.

(** GetUserCommentVote returns the user's vote on a comment *)
Definition GetUserCommentVote (userID commentID : Z) : M (option bool * option error) :=
  row ← QueryRow now (SelectVote Comment userID commentID);
  match Scan1 scan_bool row with
  | inl ErrNoRows => ret (None, None)
  | inl err => ret (None, Some err)
  | inr isLike => ret (Some isLike, None)
  end.

End Methods.

End LikesService.

(** ** internal/services/session.go *)

Module SessionService.

(** Session lifetime: [24 * time.Hour], in seconds. *)
Definition sessionLifetime : Z := 24 * 3600.

(** Create a new session (and delete any existing sessions for this user).

    [now] is the clock ([time.Now()]) and [loc] the zone of the process
    ([time.Local]), in which the driver writes [expiresAt]; [entropy] is
    what the environment hands back for [rand.Read] on 32 bytes followed
    by [base64.URLEncoding.EncodeToString]: an error, or the encoded
    token. *)
Definition CreateSession (loc : Location) (now : Z) (entropy : error + string)
    (userID : Z) : M (string * option error) :=
  err ← Exec now (DeleteUserSessions userID);
  match err with
  | Some err => ret (EmptyString, Some err)
  | None =>
    match entropy with
    | inl err => ret (EmptyString, Some err)
    | inr token =>
        let expiresAt := now + sessionLifetime in
        err ← Exec now (InsertSession token userID (wallClock loc expiresAt));
        match err with
        | Some err => ret (EmptyString, Some err)
        | None => ret (token, None)
        end
    end
  end.

(** The zero value of [models.User]. *)
Definition zeroUser : User := mkUser 0 EmptyString EmptyString EmptyString EmptyString EmptyString false 0 0.

(** [Scan(&user.ID, &user.UUID, &user.Username, &user.Email, &avatarURL,
    &user.IsAdmin, &user.CreatedAt)]: the first column that does not convert
    gives the error. *)
Definition scan_user_row (row : option (list value)) : error + (User * NullString) :=
  match row with
  | None => inl ErrNoRows
  | Some [c1; c2; c3; c4; c5; c6; c7] =>
      match scan_int c1 with inl e => inl e | inr id =>
      match scan_string c2 with inl e => inl e | inr uuid =>
      match scan_string c3 with inl e => inl e | inr username =>
      match scan_string c4 with inl e => inl e | inr email =>
      match scan_NullString c5 with inl e => inl e | inr avatarURL =>
      match scan_bool c6 with inl e => inl e | inr isAdmin =>
      match scan_time c7 with inl e => inl e | inr createdAt =>
        inr (mkUser id uuid username email EmptyString EmptyString isAdmin createdAt 0, avatarURL)
      end end end end end end end
  | Some _ => inl (ErrScan "wrong number of destination arguments")
  end.

Definition set_AvatarURL (a : string) (u : User) : User :=
  mkUser (ID u) (UUID u) (Username u) (Email u) (PasswordHash u) a
         (IsAdmin u) (CreatedAt u) (UpdatedAt u).

(** Get user by session token *)
Definition GetUserByToken (now : Z) (token : string) : M (option User * option error) :=
  row ← QueryRow now (SelectUserByToken token);
  match scan_user_row row with
  | inl ErrNoRows => ret (None, Some (ErrNew "invalid or expired session"))
  | inl err => ret (None, Some err)
  | inr (user, avatarURL) =>
      if SValid avatarURL
      then ret (Some (set_AvatarURL (String_ avatarURL) user), None)
      else ret (Some (set_AvatarURL EmptyString user), None)
  end.

(** Delete session (logout) *)
Definition DeleteSession (now : Z) (token : string) : M (option error) :=
  Exec now (Store.DeleteSession token).

(** Clean expired sessions *)
Definition CleanExpiredSessions (now : Z) : M (option error) :=
  Exec now DeleteExpiredSessions.

(** [n] logins of one user in a row, each with its own clock reading and
    its own draw from the random source; the results are listed oldest
    first. *)
Fixpoint CreateSessions (loc : Location) (userID : Z) (draws : list (Z * string))
  : M (list (string * option error)) :=
  match draws with
  | [] => ret []
  | (now, token) :: rest =>
      r ← CreateSession loc now (inr token) userID;
      rs ← CreateSessions loc userID rest;
      ret (r :: rs)
  end.

End SessionService.

(** ** internal/middleware/auth.go *)

Module AuthMiddleware.

(** [http.Cookie] and the part of [http.Request] the gate reads. *)
Record Cookie : Type := mkCookie { Name : string; Value : string }.

Record Request : Type := mkRequest {
  URL_Path : string;
  Cookies : list Cookie
}.

(** [r.Cookie(name)]: the first cookie of that name, or [http.ErrNoCookie]. *)
Definition Request_Cookie (r : Request) (name : string) : error + Cookie :=
  match list_find (λ c, Name c = name) (Cookies r) with
  | Some (_, c) => inr c
  | None => inl ErrNoCookie
  end.

(** What the gate does with the request: it answers with a redirect, or
    it calls [next.ServeHTTP] with the request context holding the given
    user (none when the context was left as it came). *)
Inductive Outcome : Type :=
| HttpRedirect (url : string) (code : Z)
| NextServeHTTP (user : option User).

Definition StatusSeeOther : Z := 303.

(** Optional authentication - sets user in context if logged in *)
Definition OptionalAuth (now : Z) (r : Request) : M Outcome :=
  match Request_Cookie r "session_token" with
  | inl _ => ret (NextServeHTTP None)
  | inr cookie =>
      '(user, err) ← SessionService.GetUserByToken now (Value cookie);
      match err with
      | Some _ => ret (NextServeHTTP None)
      | None => ret (NextServeHTTP user)
      end
  end.

(** Required authentication - redirects to login if not authenticated.
    The calls to [log.Printf] write to the process log only and are left
    out. *)
Definition RequireAuth (now : Z) (r : Request) : M Outcome :=
  match Request_Cookie r "session_token" with
  | inl _ => ret (HttpRedirect "/login" StatusSeeOther)
  | inr cookie =>
      '(user, err) ← SessionService.GetUserByToken now (Value cookie);
      match err with
      | Some _ => ret (HttpRedirect "/login" StatusSeeOther)
      | None => ret (NextServeHTTP user)
      end
  end.

End AuthMiddleware.

(** ** internal/validation/validation.go *)

Module Validation.

(** A Go string is read here as the sequence of runes that
    [for _, r := range s] yields (a byte that is not part of a well-formed
    UTF-8 sequence shows as U+FFFD), and [strings.Builder.WriteRune] appends
    one rune.  [utf8.RuneCountInString] is then the length of the
    sequence, and the byte-level searches of package [strings] for the
    patterns used below, each the encoding of whole runes, coincide with
    searches on runes. *)
Definition rune : Type := Z.

Abbreviation text := (list rune).

(** [unicode.In(r, ranges...)] *)
Definition unicode_In (r : rune) (ranges : list (rune → bool)) : bool :=
  existsb (λ t, t r) ranges.

(** The tables of Go's package [unicode] that the validators consult.  They
    belong to the Go distribution, not to this repository, and are taken as
    a parameter; the one fact used about them is that no combining mark lies
    below U+0300. *)
Class UnicodeTables : Type := {
  IsUpper : rune → bool;      (* unicode.IsUpper: category Lu *)
  IsLower : rune → bool;      (* unicode.IsLower: category Ll *)
  IsLetter : rune → bool;     (* unicode.IsLetter: category L *)
  IsDigit : rune → bool;      (* unicode.IsDigit: category Nd *)
  IsSpace : rune → bool;      (* unicode.IsSpace: property White_Space *)
  Mn : rune → bool;           (* unicode.Mn: nonspacing marks *)
  Mc : rune → bool;           (* unicode.Mc: spacing marks *)
  Me : rune → bool;           (* unicode.Me: enclosing marks *)
  marks_from_0300 : ∀ r, unicode_In r [Mn; Mc; Me] = true → 0x0300 ≤ r
}.

(** Dangerous Unicode ranges that can break UI *)
Definition dangerousUnicodeRanges : list (rune * rune * string) :=
  [ (0x0300, 0x036F, "Combining Diacritical Marks");
    (0x1AB0, 0x1AFF, "Combining Diacritical Marks Extended");
    (0x1DC0, 0x1DFF, "Combining Diacritical Marks Supplement");
    (0x20D0, 0x20FF, "Combining Diacritical Marks for Symbols");
    (0xFE20, 0xFE2F, "Combining Half Marks");
    (0x200B, 0x200D, "Zero Width Characters");
    (0x2060, 0x2064, "Word Joiner and Invisible Characters");
    (0xFEFF, 0xFEFF, "Byte Order Mark") ].

(** Control characters that should be blocked *)
Definition controlCharRanges : list (rune * rune) :=
  [ (0x0000, 0x0008);   (* C0 controls (NUL to BS) - excludes TAB *)
    (0x0B, 0x0C);       (* VT and FF - excludes LF and CR *)
    (0x0E, 0x1F);       (* SO to US - after CR *)
    (0x007F, 0x009F) ]. (* Delete + C1 controls *)

(** isControlChar checks if character is a control character *)
Definition isControlChar (r : rune) : bool :=
  existsb (λ rang : rune * rune, (rang.1 <=? r) && (r <=? rang.2)) controlCharRanges.

(** isDangerousUnicode checks if character is in dangerous Unicode ranges *)
Definition isDangerousUnicode (r : rune) : bool :=
  existsb (λ rang : rune * rune * string, (rang.1.1 <=? r) && (r <=? rang.1.2))
          dangerousUnicodeRanges.

(** *** Package [strings] on rune sequences *)

Fixpoint HasPrefix (s prefix : text) {struct prefix} : bool :=
  match prefix, s with
  | [], _ => true
  | _ :: _, [] => false
  | p :: prefix', c :: s' => (c =? p) && HasPrefix s' prefix'
  end.

(** [strings.Contains(s, substr)] *)
Fixpoint Contains (s substr : text) : bool :=
  HasPrefix s substr ||
  match s with
  | [] => false
  | _ :: s' => Contains s' substr
  end.

(** [strings.Count(s, substr)] for a non-empty [substr]: occurrences that do
    not overlap, found left to right.  [skip] runes are still covered by
    the occurrence found last. *)
Fixpoint Count_from (skip : nat) (s substr : text) : Z :=
  match s with
  | [] => 0
  | _ :: s' =>
      match skip with
      | S k => Count_from k s' substr
      | O => if HasPrefix s substr
             then 1 + Count_from (length substr - 1) s' substr
             else Count_from 0 s' substr
      end
  end.

Definition Count (s substr : text) : Z := Count_from 0 s substr.

(** [strings.ReplaceAll(s, old, new)] for a non-empty [old]. *)
Fixpoint ReplaceAll_from (skip : nat) (s old new : text) : text :=
  match s with
  | [] => []
  | c :: s' =>
      match skip with
      | S k => ReplaceAll_from k s' old new
      | O => if HasPrefix s old
             then new ++ ReplaceAll_from (length old - 1) s' old new
             else c :: ReplaceAll_from 0 s' old new
      end
  end.

Definition ReplaceAll (s old new : text) : text := ReplaceAll_from 0 s old new.

(** Rune literals. *)
Definition SP : rune := 0x20.
Definition LF : rune := 0x0A.
Definition CR : rune := 0x0D.
Definition TAB : rune := 0x09.

Section WithTables.

Context `{U : UnicodeTables}.

(** isCombiningChar checks if character is a combining character *)
Definition isCombiningChar (r : rune) : bool :=
  unicode_In r [Mn; Mc; Me].

(** [strings.TrimSpace]: leading and trailing white space, as defined by
    Unicode, removed. *)
Fixpoint TrimLeftSpace (s : text) : text :=
  match s with
  | [] => []
  | c :: s' => if IsSpace c then TrimLeftSpace s' else s
  end.

Definition TrimSpace (s : text) : text :=
  reverse (TrimLeftSpace (reverse (TrimLeftSpace s))).

(** The loop of [CleanText]: the runes written to the builder from [input]
    on, [combiningCount] being the counter on entry.  The counter is a Go
    [int] that grows by one per rune read, far from its bound. *)
Definition maxCombining : Z := 2.

Fixpoint CleanText_loop (combiningCount : Z) (input : text) : text :=
  match input with
  | [] => []
  | r :: rest =>
      if isControlChar r then CleanText_loop combiningCount rest
      else if isCombiningChar r then
        let combiningCount := combiningCount + 1 in
        if combiningCount <=? maxCombining
        then r :: CleanText_loop combiningCount rest
        else CleanText_loop combiningCount rest
      else
        let combiningCount := 0 in
        if isDangerousUnicode r then CleanText_loop combiningCount rest
        else r :: CleanText_loop combiningCount rest
  end.

(** CleanText removes dangerous Unicode characters and excessive combining
    marks.  NOTE: Does NOT trim spaces. *)
Definition CleanText (input : text) : text :=
  match input with
  | [] => input
  | _ => CleanText_loop 0 input
  end.

(** The zalgo loop of [ValidateTextSafety]: [true] when the counter passes
    [maxConsecutiveCombining]. *)
Definition maxConsecutiveCombining : Z := 5.

Fixpoint excessiveCombining (combiningCount : Z) (input : text) : bool :=
  match input with
  | [] => false
  | r :: rest =>
      if isCombiningChar r then
        let combiningCount := combiningCount + 1 in
        if combiningCount >? maxConsecutiveCombining then true
        else excessiveCombining combiningCount rest
      else excessiveCombining 0 rest
  end.

Definition msgExcessive : string :=
  "Text contains excessive special characters that may break display".
Definition msgSuspicious : string := "Text contains suspicious character patterns".
Definition msgInvisible : string := "Text contains invisible characters".

(** ValidateTextSafety checks for dangerous Unicode patterns *)
Definition ValidateTextSafety (input : text) : bool * string :=
  match input with
  | [] => (true, EmptyString)
  | _ =>
    if excessiveCombining 0 input then (false, msgExcessive)
    else if (Count input [0xED] >? 10) || (Count input [0xEC] >? 10)
    then (false, "Text contains suspicious character patterns")
    else if Contains input [0x200B] || Contains input [0x200C] || Contains input [0x200D]
    then (false, "Text contains invisible characters")
    else (true, EmptyString)
  end.

(** [utf8.RuneCountInString] *)
Definition RuneCountInString (s : text) : Z := Z.of_nat (length s).

(** [regexp.MustCompile(`^[a-zA-Z0-9_\-]+$`).MatchString]: one or more
    runes, each in the class. *)
Definition usernameChar (r : rune) : bool :=
  ((0x61 <=? r) && (r <=? 0x7A)) || ((0x41 <=? r) && (r <=? 0x5A)) ||
  ((0x30 <=? r) && (r <=? 0x39)) || (r =? 0x5F) || (r =? 0x2D).

Definition validUsername_MatchString (s : text) : bool :=
  match s with
  | [] => false
  | _ => forallb usernameChar s
  end.

(** ValidateUsername checks if username is valid and safe *)
Definition ValidateUsername (username : text) : bool * string :=
  let cleaned := CleanText username in
  if Contains cleaned [SP] then (false, "Username cannot contain spaces")
  else
    let '(valid, errMsg) := ValidateTextSafety cleaned in
    if negb valid then (false, errMsg)
    else
      let length := RuneCountInString cleaned in
      if length <? 3 then (false, "Username must be at least 3 characters")
      else if length >? 50 then (false, "Username must be no more than 50 characters")
      else if negb (validUsername_MatchString cleaned)
      then (false, "Username can only contain letters, numbers, underscores, and hyphens")
      else (true, EmptyString).

(** ValidatePassword checks if password meets strong password policy *)
Definition ValidatePassword (password : text) : bool * string :=
  let length := RuneCountInString password in
  if length <? 8 then (false, "Password must be at least 8 characters")
  else if length >? 128 then (false, "Password must be no more than 128 characters")
  else if Contains password [SP] then (false, "Password cannot contain spaces")
  else
    let hasUpper := existsb IsUpper password in
    if negb hasUpper then (false, "Password must contain at least one uppercase letter")
    else
      let hasLower := existsb IsLower password in
      if negb hasLower then (false, "Password must contain at least one lowercase letter")
      else
        let hasDigit := existsb IsDigit password in
        if negb hasDigit then (false, "Password must contain at least one number")
        else
          let hasSpecial :=
            existsb (λ char, negb (IsLetter char) && negb (IsDigit char)
                             && negb (IsSpace char)) password in
          if negb hasSpecial
          then (false, "Password must contain at least one special character (!@#$%^&*)")
          else (true, EmptyString).

(** [for strings.Contains(cleaned, "  ") { cleaned = strings.ReplaceAll(cleaned, "  ", " ") }];
    every turn of the loop shortens the string, so [length cleaned] turns
    are enough (lemma [collapseSpaces_done]). *)
Fixpoint collapseSpaces_loop (fuel : nat) (cleaned : text) : text :=
  match fuel with
  | O => cleaned
  | S fuel' =>
      if Contains cleaned [SP; SP]
      then collapseSpaces_loop fuel' (ReplaceAll cleaned [SP; SP] [SP])
      else cleaned
  end.

Definition collapseSpaces (cleaned : text) : text :=
  collapseSpaces_loop (length cleaned) cleaned.

(** "More than 5 consecutive combining marks appear in [s]". *)
Definition excessiveRun (s : text) : Prop :=
  ∃ pre run post,
    s = pre ++ run ++ post ∧ (5 < length run)%nat ∧
    Forall (λ r, isCombiningChar r = true) run.

(** The title after cleaning and the single-line normalisation. *)
Definition normalizeTitle (title : text) : text :=
  let cleaned := CleanText title in
  let cleaned := ReplaceAll cleaned [LF] [SP] in
  let cleaned := ReplaceAll cleaned [CR] [SP] in
  let cleaned := ReplaceAll cleaned [TAB] [SP] in
  collapseSpaces cleaned.

Definition msgTitleRequired : string := "Title is required".
Definition msgTitleSpaces : string := "Title cannot have spaces at the beginning or end".

(** ValidatePostTitle checks if post title is valid and safe *)
Definition ValidatePostTitle (title : text) : bool * string :=
  let cleaned := normalizeTitle title in
  if negb (bool_decide (cleaned = TrimSpace cleaned)) then (false, msgTitleSpaces)
  else
    let '(valid, errMsg) := ValidateTextSafety cleaned in
    if negb valid then (false, errMsg)
    else
      let length := RuneCountInString cleaned in
      if length =? 0 then (false, msgTitleRequired)
      else if length <? 3 then (false, "Title must be at least 3 characters")
      else if length >? 255 then (false, "Title must be no more than 255 characters")
      else (true, EmptyString).

(** The content of a post or comment after cleaning, with line endings
    normalised and tabs expanded. *)
Definition normalizeContent (content : text) : text :=
  let cleaned := CleanText content in
  let cleaned := ReplaceAll cleaned [CR; LF] [LF] in
  let cleaned := ReplaceAll cleaned [CR] [LF] in
  ReplaceAll cleaned [TAB] [SP; SP; SP; SP].

(** ValidatePostContent checks if post content is valid and safe *)
Definition ValidatePostContent (content : text) : bool * string :=
  let cleaned := normalizeContent content in
  if negb (bool_decide (cleaned = TrimSpace cleaned))
  then (false, "Content cannot have spaces at the beginning or end")
  else
    let '(valid, errMsg) := ValidateTextSafety cleaned in
    if negb valid then (false, errMsg)
    else
      let length := RuneCountInString cleaned in
      if length =? 0 then (false, "Content is required")
      else if length <? 10 then (false, "Content must be at least 10 characters")
      else if length >? 10000 then (false, "Content must be no more than 10,000 characters")
      else (true, EmptyString).

(** ValidateCommentContent checks if comment content is valid and safe *)
Definition ValidateCommentContent (content : text) : bool * string :=
  let cleaned := normalizeContent content in
  if negb (bool_decide (cleaned = TrimSpace cleaned))
  then (false, "Comment cannot have spaces at the beginning or end")
  else
    let '(valid, errMsg) := ValidateTextSafety cleaned in
    if negb valid then (false, errMsg)
    else
      let length := RuneCountInString cleaned in
      if length =? 0 then (false, "Comment content is required")
      else if length <? 10 then (false, "Comment must be at least 10 characters")
      else if length >? 5000 then (false, "Comment must be no more than 5,000 characters")
      else (true, EmptyString).

(** "A run of more than [n] consecutive combining marks appears in [s]";
    [excessiveRun] is the case [n = 5]. *)
Definition markRun (n : nat) (s : text) : Prop :=
  ∃ pre run post,
    s = pre ++ run ++ post ∧ (n < length run)%nat ∧
    Forall (λ r, isCombiningChar r = true) run.

(** The scan of [excessiveCombining] with its bound as a parameter. *)
Fixpoint overLimit (limit combiningCount : Z) (input : text) : bool :=
  match input with
  | [] => false
  | r :: rest =>
      if isCombiningChar r then
        let combiningCount := combiningCount + 1 in
        if combiningCount >? limit then true
        else overLimit limit combiningCount rest
      else overLimit limit 0 rest
  end.

End WithTables.

(** *** Package [regexp]: the patterns of the validators

    The patterns are anchored at both ends ([^...$], no flags), so
    [MatchString] asks whether the whole string is in the language.  The
    matcher takes the derivative of the expression by each rune in turn. *)
Inductive regex : Type :=
| ReNone                                  (* no string *)
| ReEmpty                                 (* the empty string *)
| ReClass (ranges : list (rune * rune))   (* [lo-hi...]: one rune *)
| ReCat (a b : regex)                     (* ab *)
| ReAlt (a b : regex)                     (* a|b *)
| ReStar (a : regex).                     (* a* *)

Definition ReLit (r : rune) : regex := ReClass [(r, r)].
Definition RePlus (a : regex) : regex := ReCat a (ReStar a).           (* a+ *)

(** [a{n,}] *)
Fixpoint ReAtLeast (n : nat) (a : regex) : regex :=
  match n with
  | O => ReStar a
  | S n' => ReCat a (ReAtLeast n' a)
  end.

Definition inClass (ranges : list (rune * rune)) (r : rune) : bool :=
  existsb (λ rang : rune * rune, (rang.1 <=? r) && (r <=? rang.2)) ranges.

Fixpoint nullable (re : regex) : bool :=
  match re with
  | ReNone => false
  | ReEmpty => true
  | ReClass _ => false
  | ReCat a b => nullable a && nullable b
  | ReAlt a b => nullable a || nullable b
  | ReStar _ => true
  end.

Fixpoint deriv (c : rune) (re : regex) : regex :=
  match re with
  | ReNone => ReNone
  | ReEmpty => ReNone
  | ReClass ranges => if inClass ranges c then ReEmpty else ReNone
  | ReCat a b =>
      if nullable a then ReAlt (ReCat (deriv c a) b) (deriv c b)
      else ReCat (deriv c a) b
  | ReAlt a b => ReAlt (deriv c a) (deriv c b)
  | ReStar a => ReCat (deriv c a) (ReStar a)
  end.

Definition MatchString (re : regex) (s : text) : bool :=
  nullable (foldl (λ re c, deriv c re) re s).

(** The language of an expression. *)
Inductive matches : regex → text → Prop :=
| m_empty : matches ReEmpty []
| m_class ranges r : inClass ranges r = true → matches (ReClass ranges) [r]
| m_cat a b s1 s2 : matches a s1 → matches b s2 → matches (ReCat a b) (s1 ++ s2)
| m_alt_l a b s : matches a s → matches (ReAlt a b) s
| m_alt_r a b s : matches b s → matches (ReAlt a b) s
| m_star_nil a : matches (ReStar a) []
| m_star_cons a s1 s2 :
    matches a s1 → matches (ReStar a) s2 → matches (ReStar a) (s1 ++ s2).

(** [a-zA-Z0-9] *)
Definition alnum : list (rune * rune) := [(0x61, 0x7A); (0x41, 0x5A); (0x30, 0x39)].

(** [a-zA-Z] *)
Definition letters : list (rune * rune) := [(0x61, 0x7A); (0x41, 0x5A)].

(** [a-zA-Z0-9._%+\-] *)
Definition emailLocal : list (rune * rune) :=
  alnum ++ [(0x2E, 0x2E); (0x5F, 0x5F); (0x25, 0x25); (0x2B, 0x2B); (0x2D, 0x2D)].

(** [a-zA-Z0-9.\-] *)
Definition emailDomain : list (rune * rune) :=
  alnum ++ [(0x2E, 0x2E); (0x2D, 0x2D)].

(** Email regex pattern - requires TLD (like .com, .org, etc.):
    [^[a-zA-Z0-9._%+\-]+@[a-zA-Z0-9.\-]+\.[a-zA-Z]{2,}$] *)
Definition emailRegex : regex :=
  ReCat (RePlus (ReClass emailLocal))
    (ReCat (ReLit 0x40)
       (ReCat (RePlus (ReClass emailDomain))
          (ReCat (ReLit 0x2E) (ReAtLeast 2 (ReClass letters))))).

(** The pattern compiled in [ValidateUsername]: [^[a-zA-Z0-9_\-]+$] *)
Definition validUsername : regex :=
  RePlus (ReClass (alnum ++ [(0x5F, 0x5F); (0x2D, 0x2D)])).

(** ValidateEmail checks if email is valid *)
Definition ValidateEmail (email : text) : bool * string :=
  if Contains email [SP] then (false, "Email cannot contain spaces")
  else if negb (MatchString emailRegex email)
  then (false, "Invalid email format (must include domain like @example.com)")
  else
    let length := RuneCountInString email in
    if length >? 100 then (false, "Email must be no more than 100 characters")
    else (true, EmptyString).

(** ValidateCategories checks if category selection is valid *)
Definition ValidateCategories (categoryIDs : list Z) : bool * string :=
  if Z.of_nat (length categoryIDs) =? 0
  then (false, "At least one category is required")
  else if Z.of_nat (length categoryIDs) >? 5
  then (false, "You can select up to 5 categories")
  else (true, EmptyString).

End Validation.

(** ** Packages [strings] and [strconv] on byte strings

    URL paths and form values are Go strings handled byte by byte; they
    are Rocq strings here, one [ascii] per byte. *)

Module GoStrings.

Fixpoint HasPrefix (s prefix : string) : bool :=
  match prefix, s with
  | EmptyString, _ => true
  | String _ _, EmptyString => false
  | String p prefix', String c s' =>
      if Ascii.eqb c p then HasPrefix s' prefix' else false
  end.

(** [s[n:]] for [n <= len(s)] *)
Fixpoint from (n : nat) (s : string) : string :=
  match n, s with
  | O, _ => s
  | S _, EmptyString => EmptyString
  | S n', String _ s' => from n' s'
  end.

(** [strings.TrimPrefix] *)
Definition TrimPrefix (s prefix : string) : string :=
  if HasPrefix s prefix then from (String.length prefix) s else s.

(** [strings.Contains] *)
Fixpoint Contains (s substr : string) : bool :=
  HasPrefix s substr ||
  match s with
  | EmptyString => false
  | String _ s' => Contains s' substr
  end.

(** [strings.Split(s, sep)] for a separator of one byte: the pieces
    between the separators, one more than there are separators. *)
Fixpoint Split (s : string) (sep : ascii) : list string :=
  match s with
  | EmptyString => [EmptyString]
  | String c s' =>
      if Ascii.eqb c sep then EmptyString :: Split s' sep
      else match Split s' sep with
           | p :: ps => String c p :: ps
           | [] => [String c EmptyString]
           end
  end.

(** [strconv.NumError]: [strconv.ErrSyntax] or [strconv.ErrRange]. *)
Inductive NumError : Type := ErrSyntax | ErrRange.

Definition digit (c : ascii) : option Z :=
  let n := Z.of_N (Ascii.N_of_ascii c) in
  if (48 <=? n) && (n <=? 57) then Some (n - 48) else None.

(** The loop of [strconv.ParseUint] in base 10 on 64 bits: the first byte
    that is no digit, or that takes the value past [1<<64 - 1], ends it. *)
Fixpoint parseUint (n : Z) (s : string) : NumError + Z :=
  match s with
  | EmptyString => inr n
  | String c s' =>
      match digit c with
      | None => inl ErrSyntax
      | Some d =>
          if 2 ^ 64 <=? n * 10 + d then inl ErrRange
          else parseUint (n * 10 + d) s'
      end
  end.

(** [strconv.Atoi] where [int] has 64 bits: an optional sign, then one or
    more decimal digits and nothing else; the value has to fit an [int]. *)
Definition Atoi (s : string) : NumError + Z :=
  match s with
  | EmptyString => inl ErrSyntax
  | String c rest =>
      let neg := Ascii.eqb c "-"%char in
      let body := if Ascii.eqb c "-"%char || Ascii.eqb c "+"%char then rest else s in
      match body with
      | EmptyString => inl ErrSyntax
      | _ =>
          match parseUint 0 body with
          | inl e => inl e
          | inr un =>
              if negb neg && (2 ^ 63 <=? un) then inl ErrRange
              else if neg && (2 ^ 63 <? un) then inl ErrRange
              else inr (if neg then - un else un)
          end
      end
  end.


(** [err.Error()].  For an error of [Row.Scan] the column index and
    name that database/sql puts into the text are left out, and the text
    of [ErrRand] stands for that of the operating system's error; the
    vote handlers, which are the ones to look into the text, get neither
    from the services. *)
Fixpoint Error (e : error) : string :=
  match e with
  | ErrNoRows => "sql: no rows in result set"
  | ErrConstraint what => what
  | ErrScan what => "sql: Scan error: " ++ what
  | ErrNew msg => msg
  | ErrWrap msg cause => msg ++ Error cause
  | ErrRand => "crypto/rand: read failed"
  | ErrNoCookie => "http: named cookie not present"
  end.

End GoStrings.

(** ** internal/handlers and cmd/server/main.go: the routes of the votes *)

Module Handlers.

Import GoStrings AuthMiddleware.

(** The request as a handler reads it: the method, the path and cookies
    (the part the gate reads), and the parsed form, first value first. *)
Record HttpRequest : Type := mkHttpRequest {
  Method : string;
  Base : Request;
  Form : list (string * string)
}.

Definition Path (r : HttpRequest) : string := URL_Path (Base r).

(** [r.FormValue(key)]: the first value of the key, or the empty string. *)
Definition FormValue (r : HttpRequest) (key : string) : string :=
  match list_find (λ kv : string * string, kv.1 = key) (Form r) with
  | Some (_, kv) => kv.2
  | None => EmptyString
  end.

(** What was written to the [http.ResponseWriter]: an error page
    ([RenderError]), a redirect ([http.Redirect]), or the page of a
    handler that is not modelled here, called with the given user in the
    request context. *)
Inductive Response : Type :=
| RenderError (statusCode : Z) (title message : string)
| Redirect (url : string) (code : Z)
| Page (handler : string) (user : option User).

Definition MethodPost : string := "POST".
Definition MethodGet : string := "GET".

Section WithClock.

Variable now : Z.

(** LikePost handles POST /post/{id}/like; [user] is what
    [getUserFromContext] finds. *)
Definition LikePost (user : option User) (r : HttpRequest) : M Response :=
  if negb (String.eqb (Method r) MethodPost) then
    ret (RenderError 405 "Method Not Allowed" "This endpoint only accepts POST requests.")
  else
    match user with
    | None => ret (Redirect "/login" StatusSeeOther)
    | Some user =>
        let path := TrimPrefix (Path r) "/post/" in
        let parts := Split path "/"%char in
        if (length parts <? 2)%nat then
          ret (RenderError 404 "Not Found" "Invalid post URL.")
        else
          match Atoi (default EmptyString (head parts)) with
          | inl _ => ret (RenderError 404 "Not Found" "Invalid post ID.")
          | inr postID =>
              err ← LikesService.LikePost now (ID user) postID;
              match err with
              | Some err =>
                  if Contains (Error err) "post not found" then
                    ret (RenderError 404 "Post Not Found"
                           "The post you're trying to like doesn't exist.")
                  else
                    ret (RenderError 500 "Internal Server Error"
                           "Error processing like. Please try again.")
              | None =>
                  ret (Redirect ("/post/" ++ default EmptyString (head parts))
                                StatusSeeOther)
              end
          end
    end.

(** DislikePost handles POST /post/{id}/dislike *)
Definition DislikePost (user : option User) (r : HttpRequest) : M Response :=
  if negb (String.eqb (Method r) MethodPost) then
    ret (RenderError 405 "Method Not Allowed" "This endpoint only accepts POST requests.")
  else
    match user with
    | None => ret (Redirect "/login" StatusSeeOther)
    | Some user =>
        let path := TrimPrefix (Path r) "/post/" in
        let parts := Split path "/"%char in
        if (length parts <? 2)%nat then
          ret (RenderError 404 "Not Found" "Invalid post URL.")
        else
          match Atoi (default EmptyString (head parts)) with
          | inl _ => ret (RenderError 404 "Not Found" "Invalid post ID.")
          | inr postID =>
              err ← LikesService.DislikePost now (ID user) postID;
              match err with
              | Some err =>
                  if Contains (Error err) "post not found" then
                    ret (RenderError 404 "Post Not Found"
                           "The post you're trying to dislike doesn't exist.")
                  else
                    ret (RenderError 500 "Internal Server Error"
                           "Error processing dislike. Please try again.")
              | None =>
                  ret (Redirect ("/post/" ++ default EmptyString (head parts))
                                StatusSeeOther)
              end
          end
    end.

(** The checks that [LikeComment] and [DislikeComment] make on the path
    and on the [post_id] field before they call the service: the error
    page, or the comment id and the [post_id] as it was sent. *)
Definition commentVoteArgs (expected : string) (r : HttpRequest)
  : Response + (Z * string) :=
  let path := TrimPrefix (Path r) "/comment/" in
  let parts := Split path "/"%char in
  if (length parts <? 2)%nat then
    inl (RenderError 400 "Bad Request"
           ("Invalid comment URL format. Expected: " ++ expected))
  else if String.eqb (default EmptyString (head parts)) EmptyString then
    inl (RenderError 400 "Bad Request" "Comment ID is required.")
  else
    match Atoi (default EmptyString (head parts)) with
    | inl _ =>
        inl (RenderError 400 "Bad Request" "Invalid comment ID format. Must be a number.")
    | inr commentID =>
        if commentID <=? 0 then
          inl (RenderError 400 "Bad Request" "Comment ID must be a positive number.")
        else
          let postID := FormValue r "post_id" in
          if String.eqb postID EmptyString then
            inl (RenderError 400 "Bad Request" "Missing post ID.")
          else
            match Atoi postID with
            | inl _ =>
                inl (RenderError 400 "Bad Request"
                       "Invalid post ID format. Must be a number.")
            | inr postIDInt =>
                if postIDInt <=? 0 then
                  inl (RenderError 400 "Bad Request" "Post ID must be a positive number.")
                else inr (commentID, postID)
            end
    end.

(** LikeComment handles POST /comment/{id}/like *)
Definition LikeComment (user : option User) (r : HttpRequest) : M Response :=
  if negb (String.eqb (Method r) MethodPost) then
    ret (RenderError 405 "Method Not Allowed" "This endpoint only accepts POST requests.")
  else
    match user with
    | None => ret (Redirect "/login" StatusSeeOther)
    | Some user =>
        match commentVoteArgs "/comment/{id}/like" r with
        | inl page => ret page
        | inr (commentID, postID) =>
            err ← LikesService.LikeComment now (ID user) commentID;
            match err with
            | Some err =>
                if Contains (Error err) "comment not found" then
                  ret (RenderError 404 "Comment Not Found"
                         "The comment you're trying to like doesn't exist.")
                else
                  ret (RenderError 500 "Internal Server Error"
                         "Error processing like. Please try again.")
            | None => ret (Redirect ("/post/" ++ postID) StatusSeeOther)
            end
        end
    end.

(** DislikeComment handles POST /comment/{id}/dislike *)
Definition DislikeComment (user : option User) (r : HttpRequest) : M Response :=
  if negb (String.eqb (Method r) MethodPost) then
    ret (RenderError 405 "Method Not Allowed" "This endpoint only accepts POST requests.")
  else
    match user with
    | None => ret (Redirect "/login" StatusSeeOther)
    | Some user =>
        match commentVoteArgs "/comment/{id}/dislike" r with
        | inl page => ret page
        | inr (commentID, postID) =>
            err ← LikesService.DislikeComment now (ID user) commentID;
            match err with
            | Some err =>
                if Contains (Error err) "comment not found" then
                  ret (RenderError 404 "Comment Not Found"
                         "The comment you're trying to dislike doesn't exist.")
                else
                  ret (RenderError 500 "Internal Server Error"
                         "Error processing dislike. Please try again.")
            | None => ret (Redirect ("/post/" ++ postID) StatusSeeOther)
            end
        end
    end.

(** [authMiddleware.RequireAuth(http.HandlerFunc(next)).ServeHTTP(w, r)],
    which main.go writes out at each protected route. *)
Definition wrapRequireAuth (next : option User → HttpRequest → M Response)
    (r : HttpRequest) : M Response :=
  outcome ← RequireAuth now (Base r);
  match outcome with
  | HttpRedirect url code => ret (Redirect url code)
  | NextServeHTTP user => next user r
  end.

(** Helper to wrap handlers with optional auth:
    [authMiddleware.OptionalAuth(http.HandlerFunc(handler)).ServeHTTP] *)
Definition wrapOptionalAuth (next : option User → HttpRequest → M Response)
    (r : HttpRequest) : M Response :=
  outcome ← OptionalAuth now (Base r);
  match outcome with
  | HttpRedirect url code => ret (Redirect url code)
  | NextServeHTTP user => next user r
  end.

(** [path[len(path)-n:]] *)
Definition tail_of (n : nat) (path : string) : string :=
  from (String.length path - n) path.

(** Handle post routes - differentiates between viewing posts and
    like/dislike actions.  [forumHandler.PostView] is not modelled. *)
Definition handlePostRoutes (r : HttpRequest) : M Response :=
  let path := Path r in
  if (6 <? String.length path)%nat && String.eqb (tail_of 5 path) "/like" then
    wrapRequireAuth LikePost r
  else if (9 <? String.length path)%nat && String.eqb (tail_of 8 path) "/dislike" then
    wrapRequireAuth DislikePost r
  else
    wrapOptionalAuth (λ user _, ret (Page "PostView" user)) r.

(** handleCommentRoutes handles comment creation and like/dislike
    actions.  [forumHandler.CreateComment] is not modelled. *)
Definition handleCommentRoutes (r : HttpRequest) : M Response :=
  let path := Path r in
  if Contains path "//" then
    ret (RenderError 400 "Bad Request" "Invalid URL format: double slashes not allowed")
  else
    let pathAfterComment := TrimPrefix path "/comment/" in
    if String.eqb pathAfterComment EmptyString ||
       String.eqb pathAfterComment "like" ||
       String.eqb pathAfterComment "dislike" ||
       HasPrefix pathAfterComment "like/" ||
       HasPrefix pathAfterComment "dislike/" then
      ret (RenderError 400 "Bad Request" "Comment ID is required")
    else if (6 <? String.length path)%nat && String.eqb (tail_of 5 path) "/like" then
      wrapRequireAuth LikeComment r
    else if (9 <? String.length path)%nat && String.eqb (tail_of 8 path) "/dislike" then
      wrapRequireAuth DislikeComment r
    else
      wrapRequireAuth (λ user _, ret (Page "CreateComment" user)) r.

(** [AuthHandler.Logout]: the session of the cookie is deleted (the error
    of [DeleteSession] is dropped), the cookie is cleared, and the browser
    is sent to the home page.  The cookie set on the response is returned
    beside it. *)
Definition Logout (r : HttpRequest) : M (option Cookie * Response) :=
  if negb (String.eqb (Method r) MethodGet) && negb (String.eqb (Method r) MethodPost)
  then
    ret (None, RenderError 405 "Method Not Allowed"
                 "This endpoint only accepts GET and POST requests.")
  else
    _ ← match Request_Cookie (Base r) "session_token" with
        | inr cookie =>
            _ ← SessionService.DeleteSession now (Value cookie); ret tt
        | inl _ => ret tt
        end;
    ret (Some (mkCookie "session_token" EmptyString), Redirect "/" StatusSeeOther).

End WithClock.

End Handlers.

(** ** Concrete data for the closed examples *)

Module Sample.

Import Validation.

(** The seeded administrator of [RunMigrations] and one registered user. *)
Definition admin : UserRow :=
  mkUserRow "550e8400-e29b-41d4-a716-446655440000" "admin" "admin@forum.local"
            "$2a$10$N9qo8uLOickgx2ZMRZoMyeIjZAgcfl7p92ldGxad68LJZdL17lhWy"
            None (Some true) (Some 0).

Definition alice : UserRow :=
  mkUserRow "6f0c2f6e-0000-4000-8000-000000000002" "alice" "alice@example.com"
            "$2a$10$hash" None (Some false) (Some 100).

(** Two users, post 1 and comment 1, nobody logged in, no votes. *)
Definition db0 : DB :=
  mkDB {[ 1 := admin; 2 := alice ]} ∅ {[ 1 ]} {[ 1 ]} ∅ ∅.

Definition conn0 : Conn := mkConn db0 [].

(** The zones of the examples: UTC, and Asia/Almaty, which the Dockerfile
    sets for the server ([ENV TZ=Asia/Almaty]), at the five hours east of
    UTC that it has kept since 1 March 2024 (six hours before). *)
Definition utc : Location := λ _, 0.
Definition almaty : Location := λ _, 5 * 3600.

(** Go's [unicode] tables cut down to three blocks: Basic Latin with
    Latin-1 Supplement (U+0000-U+00FF), Combining Diacritical Marks
    (U+0300-U+036F, all of category Mn) and General Punctuation
    (U+2000-U+206F, which holds no letter, digit or mark); [White_Space] is
    listed in full.  A code point outside these blocks is in no category
    here, so the tables are only used on strings drawn from the blocks. *)
Definition in_range (lo hi r : rune) : bool := (lo <=? r) && (r <=? hi).

Definition sampleIsUpper (r : rune) : bool :=
  in_range 0x41 0x5A r || in_range 0xC0 0xD6 r || in_range 0xD8 0xDE r.

Definition sampleIsLower (r : rune) : bool :=
  in_range 0x61 0x7A r || (r =? 0xB5) || in_range 0xDF 0xF6 r || in_range 0xF8 0xFF r.

Definition sampleIsLetter (r : rune) : bool :=
  sampleIsUpper r || sampleIsLower r || (r =? 0xAA) || (r =? 0xBA).

Definition sampleIsDigit (r : rune) : bool := in_range 0x30 0x39 r.

Definition sampleIsSpace (r : rune) : bool :=
  in_range 0x09 0x0D r || (r =? 0x20) || (r =? 0x85) || (r =? 0xA0) ||
  (r =? 0x1680) || in_range 0x2000 0x200A r || in_range 0x2028 0x2029 r ||
  (r =? 0x202F) || (r =? 0x205F) || (r =? 0x3000).

Definition sampleMn (r : rune) : bool := in_range 0x0300 0x036F r.

Lemma sample_marks_from_0300 (r : rune) :
  unicode_In r [sampleMn; λ _, false; λ _, false] = true → 0x0300 ≤ r.
Proof. unfold unicode_In, sampleMn, in_range. simpl. lia. Qed.

Definition tables : UnicodeTables := {|
  IsUpper := sampleIsUpper;
  IsLower := sampleIsLower;
  IsLetter := sampleIsLetter;
  IsDigit := sampleIsDigit;
  IsSpace := sampleIsSpace;
  Mn := sampleMn;
  Mc := λ _, false;
  Me := λ _, false;
  marks_from_0300 := sample_marks_from_0300
|}.

(** [n] copies of a rune. *)
Definition rep (n : nat) (r : rune) : text := replicate n r.

(** U+0301 COMBINING ACUTE ACCENT and U+200B ZERO WIDTH SPACE. *)
Definition ACUTE : rune := 0x0301.
Definition ZWSP : rune := 0x200B.

End Sample.

(** * Properties *)

(** ** Vote toggler *)

Module LikesTheory.

Import LikesService.

(** Unfolding a service method down to the store. *)
Ltac run_method :=
  unfold LikePost, DislikePost, LikeComment, DislikeComment,
         postExists, commentExists, GetPostLikeCounts;
  unfold mbind, M_bind, ret, mret, M_ret, QueryRow, Exec; simpl.

(** Closed membership facts about the sample store. *)
Ltac by_compute := apply (bool_decide_unpack _); by vm_compute.

Lemma set_votes_same k d : set_votes k (votes k d) d = d.
Proof. by destruct k, d. Qed.

Lemma alter_present (m : gmap (Z * Z) bool) i b b' :
  m !! i = Some b → alter (λ _, b') i m = <[i := b']> m.
Proof.
  intros Hi. apply map_eq. intros j.
  destruct (decide (i = j)) as [->|Hne].
  - by rewrite lookup_alter_eq, lookup_insert_eq, Hi.
  - by rewrite lookup_alter_ne, lookup_insert_ne.
Qed.

(** What a vote on an existing post sends: the existence check, the
    read of the vote row, and one write. *)
Local Abbreviation sent c U P stmt :=
  (log c ++ [OpQuery (SelectExists Post P); OpQuery (SelectVote Post U P);
             OpExec stmt]).

Lemma LikePost_run now U P c :
  U ∈ dom (users (db c)) → P ∈ posts (db c) →
  LikePost now U P c =
    match post_likes (db c) !! (U, P) with
    | None =>
        (None, mkConn (set_votes Post (<[(U, P) := true]> (post_likes (db c))) (db c))
                      (sent c U P (InsertVote Post U P true)))
    | Some true =>
        (None, mkConn (set_votes Post (delete (U, P) (post_likes (db c))) (db c))
                      (sent c U P (DeleteVote Post U P)))
    | Some false =>
        (None, mkConn (set_votes Post (<[(U, P) := true]> (post_likes (db c))) (db c))
                      (sent c U P (UpdateVote Post U P true)))
    end.
Proof.
  intros HU HP. run_method.
  rewrite decide_True by done. simpl.
  destruct (post_likes (db c) !! (U, P)) as [[|]|] eqn:Hm; simpl;
    rewrite <- ?(assoc_L (++)); simpl.
  - done.
  - by rewrite (alter_present _ _ false).
  - rewrite Hm. rewrite decide_False by (by intros [? ?]).
    rewrite decide_True by done. done.
Qed.

Lemma DislikePost_run now U P c :
  U ∈ dom (users (db c)) → P ∈ posts (db c) →
  DislikePost now U P c =
    match post_likes (db c) !! (U, P) with
    | None =>
        (None, mkConn (set_votes Post (<[(U, P) := false]> (post_likes (db c))) (db c))
                      (sent c U P (InsertVote Post U P false)))
    | Some false =>
        (None, mkConn (set_votes Post (delete (U, P) (post_likes (db c))) (db c))
                      (sent c U P (DeleteVote Post U P)))
    | Some true =>
        (None, mkConn (set_votes Post (<[(U, P) := false]> (post_likes (db c))) (db c))
                      (sent c U P (UpdateVote Post U P false)))
    end.
Proof.
  intros HU HP. run_method.
  rewrite decide_True by done. simpl.
  destruct (post_likes (db c) !! (U, P)) as [[|]|] eqn:Hm; simpl;
    rewrite <- ?(assoc_L (++)); simpl.
  - by rewrite (alter_present _ _ true).
  - done.
  - rewrite Hm. rewrite decide_False by (by intros [? ?]).
    rewrite decide_True by done. done.
Qed.

(** C1: the post vote operations implement the three-way toggle table.
    For a user [U] with a row in [users] and an existing post [P]: with no
    vote row for [(U, P)], [LikePost] inserts [is_like = true] and
    [DislikePost] inserts [is_like = false]; on a stored [true], [LikePost]
    deletes the row and [DislikePost] updates it to [false]; on a stored
    [false], [DislikePost] deletes the row and [LikePost] updates it to
    [true].  Each call returns no error, sends that one write after its
    two reads, and changes nothing else in the store.  From no vote, Like
    then Like gives the store back as it was, and Like then Dislike leaves
    the row at [false]. *)
Theorem post_vote_toggle_table now (U P : Z) (c : Conn) :
  U ∈ dom (users (db c)) → P ∈ posts (db c) →
  let m := post_likes (db c) in
  let like := LikePost now U P in
  let dislike := DislikePost now U P in
  let wrote m' stmt := (None, mkConn (set_votes Post m' (db c)) (sent c U P stmt)) in
  (m !! (U, P) = None →
     like c = wrote (<[(U, P) := true]> m) (InsertVote Post U P true) ∧
     dislike c = wrote (<[(U, P) := false]> m) (InsertVote Post U P false)) ∧
  (m !! (U, P) = Some true →
     like c = wrote (delete (U, P) m) (DeleteVote Post U P) ∧
     dislike c = wrote (<[(U, P) := false]> m) (UpdateVote Post U P false)) ∧
  (m !! (U, P) = Some false →
     like c = wrote (<[(U, P) := true]> m) (UpdateVote Post U P true) ∧
     dislike c = wrote (delete (U, P) m) (DeleteVote Post U P)) ∧
  (m !! (U, P) = None →
     db ((_ ← like; like) c).2 = db c ∧
     post_likes (db ((_ ← like; dislike) c).2) !! (U, P) = Some false).
Proof.
  intros HU HP m like dislike wrote. subst m like dislike wrote.
  pose proof (LikePost_run now U P c HU HP) as Hl.
  pose proof (DislikePost_run now U P c HU HP) as Hd.
  split; [|split; [|split]]; intros Hm; rewrite Hm in Hl, Hd; try done.
  unfold mbind, M_bind. rewrite Hl.
  set (c1 := mkConn _ _).
  assert (HU' : U ∈ dom (users (db c1))) by done.
  assert (HP' : P ∈ posts (db c1)) by done.
  assert (Hm' : post_likes (db c1) !! (U, P) = Some true)
    by apply lookup_insert_eq.
  rewrite (LikePost_run now U P c1 HU' HP'), (DislikePost_run now U P c1 HU' HP').
  rewrite Hm'. simpl. split.
  - rewrite delete_insert_eq, delete_id by done.
    apply (set_votes_same Post).
  - apply lookup_insert_eq.
Qed.

(** The toggle table at work on the sample store: user 2 likes and then
    dislikes post 1. *)
Lemma post_vote_toggle_table_witness :
  post_likes (db ((_ ← LikePost 0 2 1; DislikePost 0 2 1) Sample.conn0).2) !! (2, 1)
  = Some false.
Proof.
  refine (proj2 (proj2 (proj2 (proj2
            (post_vote_toggle_table 0 2 1 Sample.conn0 _ _))) _));
    [by_compute | by_compute | reflexivity].
Defined.

(** C3: a vote on a target that does not exist fails with the not-found
    error and writes nothing: the store is the one before the call, and
    the only statement sent is the existence check.  In every call, also
    on an existing target, the existence check is the first statement
    sent, before the vote row is read or written. *)
Theorem vote_on_missing_target now (U T : Z) (c : Conn) :
  (T ∉ posts (db c) →
     LikePost now U T c =
       (Some (ErrNew "post not found"),
        mkConn (db c) (log c ++ [OpQuery (SelectExists Post T)])) ∧
     DislikePost now U T c =
       (Some (ErrNew "post not found"),
        mkConn (db c) (log c ++ [OpQuery (SelectExists Post T)]))) ∧
  (T ∉ comments (db c) →
     LikeComment now U T c =
       (Some (ErrNew "comment not found"),
        mkConn (db c) (log c ++ [OpQuery (SelectExists Comment T)])) ∧
     DislikeComment now U T c =
       (Some (ErrNew "comment not found"),
        mkConn (db c) (log c ++ [OpQuery (SelectExists Comment T)]))) ∧
  (∃ rest, log (LikePost now U T c).2
           = log c ++ OpQuery (SelectExists Post T) :: rest) ∧
  (∃ rest, log (DislikePost now U T c).2
           = log c ++ OpQuery (SelectExists Post T) :: rest) ∧
  (∃ rest, log (LikeComment now U T c).2
           = log c ++ OpQuery (SelectExists Comment T) :: rest) ∧
  (∃ rest, log (DislikeComment now U T c).2
           = log c ++ OpQuery (SelectExists Comment T) :: rest).
Proof.
  split; [|split].
  - intros HT. run_method. by rewrite decide_False by done.
  - intros HT. run_method. by rewrite decide_False by done.
  - repeat split; run_method;
      (destruct (decide (T ∈ _)); simpl; [|by eexists]);
      (destruct (_ !! (U, T)) as [[|]|]; simpl;
       repeat (case_decide; simpl);
       rewrite <- ?(assoc_L (++)); by eexists).
Qed.

(** Post 7 and comment 7 are not in the sample store. *)
Lemma vote_on_missing_target_witness :
  LikePost 0 2 7 Sample.conn0 =
    (Some (ErrNew "post not found"),
     mkConn Sample.db0 [OpQuery (SelectExists Post 7)]) ∧
  DislikeComment 0 2 7 Sample.conn0 =
    (Some (ErrNew "comment not found"),
     mkConn Sample.db0 [OpQuery (SelectExists Comment 7)]).
Proof.
  split.
  - refine (proj1 (proj1 (vote_on_missing_target 0 2 7 Sample.conn0) _)).
    intros H. by apply (bool_decide_pack _) in H.
  - refine (proj2 (proj1 (proj2 (vote_on_missing_target 0 2 7 Sample.conn0)) _)).
    intros H. by apply (bool_decide_pack _) in H.
Defined.

Lemma vote_rows_none (P : Z) (m : gmap (Z * Z) bool) :
  (∀ u, m !! (u, P) = None) → vote_rows P m = [].
Proof.
  intros Hnone. unfold vote_rows.
  rewrite (proj2 (map_empty_filter _ m)); [apply map_to_list_empty|].
  intros [u p] b Hlk Hp. simpl in Hp. subst p. by rewrite Hnone in Hlk.
Qed.

(** C10: for a post without vote rows, [GetPostLikeCounts] returns an
    error, not the counts (0, 0) with a nil error: SUM over no rows is
    NULL, [Scan] cannot store NULL into an [int], and only
    [sql.ErrNoRows], which an aggregate never gives, is mapped to
    (0, 0, nil). *)
Theorem GetPostLikeCounts_no_votes now (P : Z) (c : Conn) :
  (∀ u, post_likes (db c) !! (u, P) = None) →
  GetPostLikeCounts now P c =
    ((0, 0, Some (ErrScan "converting NULL to int is unsupported")),
     mkConn (db c) (log c ++ [OpQuery (SelectLikeCounts P)])).
Proof.
  intros Hnone. run_method. by rewrite vote_rows_none.
Qed.

(** Post 1 of the sample store exists and has no votes. *)
Lemma GetPostLikeCounts_no_votes_witness :
  1 ∈ posts Sample.db0 ∧
  (GetPostLikeCounts 0 1 Sample.conn0).1
  = (0, 0, Some (ErrScan "converting NULL to int is unsupported")).
Proof.
  split; [by_compute|].
  refine (f_equal fst (GetPostLikeCounts_no_votes 0 1 Sample.conn0 _)).
  intros u. apply lookup_empty.
Defined.

(** With one like stored, the same call returns the counts. *)
Example GetPostLikeCounts_one_like :
  (GetPostLikeCounts 0 1 (LikePost 0 2 1 Sample.conn0).2).1 = (1, 0, None).
Proof. by vm_compute. Qed.

End LikesTheory.

(** ** Session manager *)

Module SessionTheory.

Import SessionService.

Ltac run_method :=
  unfold CreateSession, GetUserByToken;
  unfold mbind, M_bind, ret, mret, M_ret, QueryRow, Exec; simpl.

Ltac by_compute := apply (bool_decide_unpack _); by vm_compute.

(** The session rows of user [U], and those of everybody else. *)
Local Abbreviation mine U m :=
  (filter (λ kv : string * SessionRow, user_id kv.2 = U) m).
Local Abbreviation others U m :=
  (filter (λ kv : string * SessionRow, user_id kv.2 ≠ U) m).

Lemma mine_or_others U (m : gmap string SessionRow) tok :
  mine U m !! tok = None → others U m !! tok = None → m !! tok = None.
Proof.
  intros Hm Ho. destruct (m !! tok) as [s|] eqn:Hs; [|done].
  destruct (decide (user_id s = U)) as [HU|HU].
  - assert (mine U m !! tok = Some s) by (by apply map_lookup_filter_Some).
    congruence.
  - assert (others U m !! tok = Some s) by (by apply map_lookup_filter_Some).
    congruence.
Qed.

Lemma others_insert_mine U (m : gmap string SessionRow) tok e :
  others U m !! tok = None →
  others U (<[tok := mkSessionRow U e]> (others U m)) = others U m.
Proof.
  intros Hfresh. apply map_eq. intros j.
  destruct (others U m !! j) as [s|] eqn:Hj.
  - apply map_lookup_filter_Some. split.
    + rewrite lookup_insert_ne; [done|]. intros ->. congruence.
    + by apply map_lookup_filter_Some in Hj as [_ ?].
  - apply map_lookup_filter_None.
    destruct (decide (tok = j)) as [->|Hne].
    + right. intros x. rewrite lookup_insert_eq. intros [= <-]. simpl. tauto.
    + left. by rewrite lookup_insert_ne.
Qed.

Lemma mine_insert_mine U (m : gmap string SessionRow) tok e :
  mine U (<[tok := mkSessionRow U e]> (others U m)) = {[ tok := mkSessionRow U e ]}.
Proof.
  apply map_eq. intros j.
  destruct (decide (tok = j)) as [->|Hne].
  - rewrite lookup_singleton_eq. apply map_lookup_filter_Some.
    by rewrite lookup_insert_eq.
  - rewrite lookup_singleton_ne by done. apply map_lookup_filter_None.
    rewrite lookup_insert_ne by done.
    destruct (others U m !! j) as [s|] eqn:Hj; [right|by left].
    intros x [= <-]. simpl. by apply map_lookup_filter_Some in Hj as [_ ?].
Qed.

(** One successful login: the token returned is the one drawn, it was not
    in use by another user, and the table now holds the other users' rows
    and one new row for [U]. *)
Lemma CreateSession_ok loc now tok U c r c' :
  CreateSession loc now (inr tok) U c = ((r, None), c') →
  r = tok ∧ U ∈ dom (users (db c)) ∧
  others U (sessions (db c)) !! tok = None ∧
  db c' = set_sessions
            (<[tok := mkSessionRow U (wallClock loc (now + sessionLifetime))]>
               (others U (sessions (db c)))) (db c).
Proof.
  run_method. repeat case_decide; simpl; intros [= <- <-]; try done.
  repeat split; try done.
  destruct (others U (sessions (db c)) !! tok) eqn:E; [|done].
  exfalso. eauto.
Qed.

Lemma CreateSessions_ok loc U draws : ∀ c results c',
  CreateSessions loc U draws c = (results, c') →
  Forall (λ r : string * option error, r.2 = None) results →
  results = (λ d : Z * string, (d.2, None)) <$> draws ∧
  others U (sessions (db c')) = others U (sessions (db c)) ∧
  (∀ tok, tok ∈ draws.*2 → others U (sessions (db c)) !! tok = None) ∧
  (∀ now tok, last draws = Some (now, tok) →
     mine U (sessions (db c'))
     = {[ tok := mkSessionRow U (wallClock loc (now + sessionLifetime)) ]}).
Proof.
  induction draws as [|[now tok] rest IH]; intros c results c'; simpl.
  - intros [= <- <-] _. repeat split; try done. intros tok Htok. inversion Htok.
  - unfold mbind, M_bind, ret, mret, M_ret.
    destruct (CreateSession loc now (inr tok) U c) as [[t e] c1] eqn:H1.
    destruct (CreateSessions loc U rest c1) as [rs c2] eqn:H2.
    intros [= <- <-] Hall. apply Forall_cons in Hall as [He Hall].
    simpl in He. subst e.
    apply CreateSession_ok in H1 as (-> & HU & Hfresh & Hdb).
    destruct (IH _ _ _ H2 Hall) as (-> & Hothers & Hrest & Hlast).
    assert (Ho1 : others U (sessions (db c1)) = others U (sessions (db c)))
      by (rewrite Hdb; simpl; by apply others_insert_mine).
    repeat split.
    + by rewrite Hothers.
    + intros tok' Htok'. apply elem_of_cons in Htok' as [->|Htok']; [done|].
      rewrite <- Ho1. by apply Hrest.
    + intros now' tok'. destruct rest as [|d rest'].
      * intros [= <- <-]. injection H2 as <-.
        rewrite Hdb. simpl. apply mine_insert_mine.
      * intros Hl. apply Hlast. by rewrite last_cons_cons in Hl.
Qed.

Lemma GetUserByToken_absent now tok c :
  sessions (db c) !! tok = None →
  GetUserByToken now tok c =
    ((None, Some (ErrNew "invalid or expired session")),
     mkConn (db c) (log c ++ [OpQuery (SelectUserByToken tok)])).
Proof. intros H. run_method. by rewrite H. Qed.

(** C2: the single-session law.  [U] logs in [N] times in a row
    ([N >= 1]); the token drawn for the last call is a fresh one, not
    drawn for an earlier call, as 32 bytes of [crypto/rand] are taken to
    be.  If every call succeeds, the calls return the tokens drawn, the
    table then holds exactly one row for [U], under the token of the last
    call, and every token returned by an earlier call fails to resolve,
    with the invalid-session error, at any time; this holds in every zone
    [loc] of the process. *)
Theorem single_session_per_user (loc : Location) (U : Z)
    (earlier : list (Z * string)) (now_last : Z) (tok_last : string) (c : Conn) :
  let draws := earlier ++ [(now_last, tok_last)] in
  let results := (CreateSessions loc U draws c).1 in
  let c' := (CreateSessions loc U draws c).2 in
  tok_last ∉ earlier.*2 →
  Forall (λ r : string * option error, r.2 = None) results →
  results.*1 = draws.*2 ∧
  filter (λ kv : string * SessionRow, user_id kv.2 = U) (sessions (db c'))
    = {[ tok_last := mkSessionRow U (wallClock loc (now_last + sessionLifetime)) ]} ∧
  ∀ tok now, tok ∈ earlier.*2 →
    (GetUserByToken now tok c').1
    = (None, Some (ErrNew "invalid or expired session")).
Proof.
  intros draws results c' Hfresh_last Hall. subst results c'.
  destruct (CreateSessions loc U draws c) as [results c'] eqn:Hrun. simpl in *.
  destruct (CreateSessions_ok loc U draws c results c' Hrun Hall)
    as (-> & Hothers & Hfresh & Hlast).
  specialize (Hlast now_last tok_last (last_snoc _ _)).
  repeat split.
  - rewrite <- list_fmap_compose. by apply list_fmap_ext.
  - done.
  - intros tok now Htok. rewrite GetUserByToken_absent; [done|].
    apply (mine_or_others U).
    + rewrite Hlast. apply lookup_singleton_ne. by intros ->.
    + rewrite Hothers. apply Hfresh. subst draws.
      rewrite fmap_app. apply elem_of_app. by left.
Qed.

(** User 2 of the sample store logs in three times. *)
Lemma single_session_per_user_witness :
  let c' := (CreateSessions Sample.almaty 2
               [(10, "tokA"); (20, "tokB"); (30, "tokC")] Sample.conn0).2 in
  filter (λ kv : string * SessionRow, user_id kv.2 = 2) (sessions (db c'))
    = {[ "tokC" := mkSessionRow 2 (wallClock Sample.almaty (30 + sessionLifetime)) ]} ∧
  (GetUserByToken 40 "tokA" c').1
    = (None, Some (ErrNew "invalid or expired session")) ∧
  (GetUserByToken 40 "tokB" c').1
    = (None, Some (ErrNew "invalid or expired session")).
Proof.
  assert (Hfresh : "tokC" ∉ [(10, "tokA"); (20, "tokB")].*2)
    by (apply (bool_decide_unpack _); by vm_compute).
  assert (Hall : Forall (λ r : string * option error, r.2 = None)
            (CreateSessions Sample.almaty 2
               ([(10, "tokA"); (20, "tokB")] ++ [(30, "tokC")]) Sample.conn0).1)
    by (apply (bool_decide_unpack _); by vm_compute).
  destruct (single_session_per_user Sample.almaty 2 [(10, "tokA"); (20, "tokB")]
              30 "tokC" Sample.conn0 Hfresh Hall) as (_ & Hone & Hold).
  split; [exact Hone|].
  split; apply Hold; apply (bool_decide_unpack _); by vm_compute.
Defined.

(** The hypothesis on the last draw is what the law rests on: were the
    random source to hand out the token of the first login again, that
    token would resolve after the second login. *)
Example repeated_draw_resolves :
  let c' := (CreateSessions Sample.almaty 2 [(10, "tokA"); (20, "tokA")]
               Sample.conn0).2 in
  (GetUserByToken 30 "tokA" c').1.2 = None.
Proof. by vm_compute. Qed.

End SessionTheory.

(** ** Auth gate *)

Module AuthTheory.

Import SessionService AuthMiddleware.

Ltac run_method :=
  unfold RequireAuth, OptionalAuth, GetUserByToken;
  unfold mbind, M_bind, ret, mret, M_ret, QueryRow, Exec; simpl.

(** A token resolves to a user only through a stored session whose
    [expires_at] compares greater than CURRENT_TIMESTAMP and the [users]
    row it points to. *)
Lemma GetUserByToken_resolves now tok c usr :
  (GetUserByToken now tok c).1 = (Some usr, None) →
  ∃ s row, sessions (db c) !! tok = Some s ∧ now ≤ expires_at s ∧
           users (db c) !! user_id s = Some row ∧
           ID usr = user_id s ∧ Username usr = username row ∧
           UUID usr = uuid row ∧ Email usr = email row.
Proof.
  run_method.
  destruct (sessions (db c) !! tok) as [s|] eqn:Hs; [|done].
  case_decide; [|done].
  destruct (users (db c) !! user_id s) as [row|] eqn:Hrow; [|done].
  simpl. intros Hscan. exists s, row. do 3 (split; [done|]).
  revert Hscan. clear Hrow.
  destruct row as [uu un em ph [av|] [ad|] [cr|]]; simpl; try done;
    by intros [= <-].
Qed.

Lemma GetUserByToken_result now tok c :
  (∃ usr, (GetUserByToken now tok c).1 = (Some usr, None)) ∨
  (∃ err, (GetUserByToken now tok c).1 = (None, Some err)).
Proof.
  run_method.
  destruct (sessions (db c) !! tok) as [s|]; [|by right; eexists].
  case_decide; [|by right; eexists].
  destruct (users (db c) !! user_id s) as [row|]; [|by right; eexists].
  simpl. destruct row as [uu un em ph [av|] [ad|] [cr|]]; simpl;
    (by left; eexists) || (by right; eexists).
Qed.

(** And such a session does resolve, to the fields of the row, when the
    row has its [is_admin] and [created_at] set. *)
Lemma GetUserByToken_stored now tok c s row a t :
  sessions (db c) !! tok = Some s → now ≤ expires_at s →
  users (db c) !! user_id s = Some row →
  is_admin row = Some a → created_at row = Some t →
  (GetUserByToken now tok c).1 =
    (Some (mkUser (user_id s) (uuid row) (username row) (email row) EmptyString
                  (default EmptyString (avatar_url row)) a t 0), None).
Proof.
  intros Hs Hexp Hrow Ha Ht. run_method.
  rewrite Hs, decide_True by done. rewrite Hrow. simpl. rewrite Ha, Ht. simpl.
  by destruct (avatar_url row).
Qed.

Lemma GetUserByToken_reads now tok c :
  db (GetUserByToken now tok c).2 = db c.
Proof.
  unfold GetUserByToken, mbind, M_bind, ret, mret, M_ret, QueryRow. simpl.
  by repeat case_match.
Qed.

(** X30: the Required gate.  The downstream handler is called only when
    the request carries a [session_token] cookie whose value resolves,
    through a stored session whose [expires_at] compares greater than
    CURRENT_TIMESTAMP, to a row of [users], and then with that user in the
    request context.  It is called whenever the lookup of the cookie's
    token gives a user, which it does for a stored session of that kind
    whose [users] row has [is_admin] and [created_at] set.  With no such
    cookie, or when the lookup of the token fails, the answer is a
    redirect to [/login] with status 303: every outcome of the gate is one
    of the two.  The gate only reads the store. *)
Theorem RequireAuth_gate now (r : Request) (c : Conn) :
  let outcome := (RequireAuth now r c).1 in
  (∀ u, outcome = NextServeHTTP u →
     ∃ cookie usr s row,
       Request_Cookie r "session_token" = inr cookie ∧
       (GetUserByToken now (Value cookie) c).1 = (Some usr, None) ∧
       u = Some usr ∧
       sessions (db c) !! Value cookie = Some s ∧ now ≤ expires_at s ∧
       users (db c) !! user_id s = Some row ∧ ID usr = user_id s) ∧
  (∀ cookie usr,
     Request_Cookie r "session_token" = inr cookie →
     (GetUserByToken now (Value cookie) c).1 = (Some usr, None) →
     outcome = NextServeHTTP (Some usr)) ∧
  (∀ cookie s row a t,
     Request_Cookie r "session_token" = inr cookie →
     sessions (db c) !! Value cookie = Some s → now ≤ expires_at s →
     users (db c) !! user_id s = Some row →
     is_admin row = Some a → created_at row = Some t →
     outcome = NextServeHTTP
                 (Some (mkUser (user_id s) (uuid row) (username row) (email row)
                               EmptyString (default EmptyString (avatar_url row))
                               a t 0))) ∧
  (∀ e, Request_Cookie r "session_token" = inl e →
     outcome = HttpRedirect "/login" 303) ∧
  (∀ cookie err,
     Request_Cookie r "session_token" = inr cookie →
     (GetUserByToken now (Value cookie) c).1.2 = Some err →
     outcome = HttpRedirect "/login" 303) ∧
  (outcome = HttpRedirect "/login" 303 ∨ ∃ usr, outcome = NextServeHTTP (Some usr)) ∧
  db (RequireAuth now r c).2 = db c.
Proof.
  intros outcome. subst outcome. unfold RequireAuth.
  destruct (Request_Cookie r "session_token") as [e|cookie] eqn:Hcookie.
  - repeat split; try done.
    + by left.
  - unfold mbind, M_bind, ret, mret, M_ret.
    pose proof (GetUserByToken_reads now (Value cookie) c) as Hdb.
    assert (Hstored : ∀ s row a t,
      sessions (db c) !! Value cookie = Some s → now ≤ expires_at s →
      users (db c) !! user_id s = Some row →
      is_admin row = Some a → created_at row = Some t →
      (GetUserByToken now (Value cookie) c).1 =
        (Some (mkUser (user_id s) (uuid row) (username row) (email row)
                      EmptyString (default EmptyString (avatar_url row)) a t 0),
         None))
      by (intros; by eapply GetUserByToken_stored).
    destruct (GetUserByToken_result now (Value cookie) c) as [[usr Hok]|[err Herr]].
    + pose proof (GetUserByToken_resolves _ _ _ _ Hok)
        as (s & row & Hs & Hexp & Hrow & Hid & _).
      destruct (GetUserByToken now (Value cookie) c) as [[u e] c1] eqn:Hrun.
      simpl in *. injection Hok as -> ->. simpl.
      repeat split; try done.
      * intros u [= <-]. exists cookie, usr, s, row. by rewrite Hrun.
      * intros cookie' usr' [= <-]. rewrite Hrun. by intros [= <-].
      * intros cookie' s' row' a t [= <-] Hs' Hexp' Hrow' Ha Ht.
        pose proof (Hstored s' row' a t Hs' Hexp' Hrow' Ha Ht) as H.
        simpl in H. by injection H as <-.
      * intros cookie' err [= <-]. by rewrite Hrun.
      * right. by eexists.
    + destruct (GetUserByToken now (Value cookie) c) as [[u e] c1] eqn:Hrun.
      simpl in *. injection Herr as -> ->. simpl.
      repeat split; try done.
      * intros cookie' usr' [= <-]. by rewrite Hrun.
      * intros cookie' s' row' a t [= <-] Hs' Hexp' Hrow' Ha Ht.
        by pose proof (Hstored s' row' a t Hs' Hexp' Hrow' Ha Ht) as H.
      * by left.
Qed.

(** User 2 logs in at time 10 and comes back at time 20 with the cookie:
    the handler is called with the user in the context. *)
Lemma RequireAuth_gate_witness :
  let c := (CreateSession Sample.utc 10 (inr "tokA") 2 Sample.conn0).2 in
  (RequireAuth 20 (mkRequest "/post/create" [mkCookie "session_token" "tokA"]) c).1
  = NextServeHTTP (Some (mkUser 2 "6f0c2f6e-0000-4000-8000-000000000002"
                           "alice" "alice@example.com" EmptyString EmptyString
                           false 100 0)).
Proof.
  intros c.
  refine (proj1 (proj2 (proj2
            (RequireAuth_gate 20
               (mkRequest "/post/create" [mkCookie "session_token" "tokA"]) c)))
            (mkCookie "session_token" "tokA")
            (mkSessionRow 2 (10 + sessionLifetime)) Sample.alice false 100
            _ _ _ _ _ _);
    first [reflexivity | by vm_compute].
Defined.

(** C9: the gate hands an expired session to the downstream handler.
    The server runs in the zone Asia/Almaty.  User 2 logs in at time 10,
    for a session of 24 hours.  A request that carries the cookie 60
    seconds after the 24 hours are over, or an hour after them, is not
    redirected to [/login]: the handler is called with the user in the
    context.  Seven hours after them the request is redirected.  The
    driver has written [expires_at] as the wall clock of Almaty, and the
    lookup compares that text with the wall clock of UTC. *)
Theorem RequireAuth_passes_expired_session :
  let c := (CreateSession Sample.almaty 10 (inr "tokA") 2 Sample.conn0).2 in
  let req := mkRequest "/post/create" [mkCookie "session_token" "tokA"] in
  let alice := mkUser 2 "6f0c2f6e-0000-4000-8000-000000000002"
                 "alice" "alice@example.com" EmptyString EmptyString
                 false 100 0 in
  (RequireAuth (10 + sessionLifetime + 60) req c).1 = NextServeHTTP (Some alice) ∧
  (RequireAuth (10 + sessionLifetime + 3600) req c).1 = NextServeHTTP (Some alice) ∧
  (RequireAuth (10 + sessionLifetime + 7 * 3600) req c).1
    = HttpRedirect "/login" 303.
Proof.
  intros c req alice. subst c req alice.
  split; [|split]; by vm_compute.
Qed.

(** In the zone UTC the same session resolves until the second in which
    the 24 hours end, that second included, and no longer; a request
    without a cookie, or with another token, is redirected at any time. *)
Example RequireAuth_examples :
  let c := (CreateSession Sample.utc 10 (inr "tokA") 2 Sample.conn0).2 in
  let req tok := mkRequest "/post/create" [mkCookie "session_token" tok] in
  (RequireAuth (10 + sessionLifetime) (req "tokA") c).1
    = NextServeHTTP (Some (mkUser 2 "6f0c2f6e-0000-4000-8000-000000000002"
                             "alice" "alice@example.com" EmptyString EmptyString
                             false 100 0)) ∧
  (RequireAuth (10 + sessionLifetime + 1) (req "tokA") c).1
    = HttpRedirect "/login" 303 ∧
  (RequireAuth 20 (req "tokB") c).1 = HttpRedirect "/login" 303 ∧
  (RequireAuth 20 (mkRequest "/post/create" []) c).1 = HttpRedirect "/login" 303.
Proof. by vm_compute. Qed.

End AuthTheory.

(** ** Text validator *)

Module ValidationTheory.

Import Validation.

(** *** Package [strings] *)

Lemma Contains_singleton (s : text) (x : rune) :
  Contains s [x] = true ↔ x ∈ s.
Proof.
  induction s as [|c s IH]; simpl.
  - split; [done|]. intros H. inversion H.
  - rewrite elem_of_cons, <- IH, orb_true_iff, andb_true_r, Z.eqb_eq.
    split; intros [H|H]; auto.
Qed.

Lemma existsb_elem_of {A} (f : A → bool) (l : list A) :
  existsb f l = true ↔ ∃ x, x ∈ l ∧ f x = true.
Proof.
  rewrite existsb_exists. split; intros (x & Hx & Hf); exists x;
    (split; [by apply list_elem_of_In|done]).
Qed.

Lemma HasPrefix_length (s prefix : text) :
  HasPrefix s prefix = true → (length prefix ≤ length s)%nat.
Proof.
  revert s. induction prefix as [|p prefix IH]; intros [|c s]; simpl;
    try done; try lia.
  rewrite andb_true_iff. intros [_ H]. apply IH in H. lia.
Qed.

(** A replacement by something no longer than the pattern does not
    lengthen the string... *)
Lemma ReplaceAll_from_length (old new : text) :
  (0 < length old)%nat → (length new ≤ length old)%nat →
  ∀ s skip, (skip ≤ length s)%nat →
    (length (ReplaceAll_from skip s old new) + skip ≤ length s)%nat.
Proof.
  intros Hold Hnew. induction s as [|c s IH]; intros skip Hskip; simpl in *.
  - lia.
  - destruct skip as [|k].
    + destruct (HasPrefix (c :: s) old) eqn:Hp.
      * apply HasPrefix_length in Hp. simpl in Hp.
        rewrite length_app.
        specialize (IH (length old - 1)%nat ltac:(lia)). lia.
      * simpl. specialize (IH 0%nat ltac:(lia)). lia.
    + specialize (IH k ltac:(lia)). lia.
Qed.

(** ... and a replacement by something shorter, where the pattern
    occurs, shortens it. *)
Lemma ReplaceAll_shorter (old new : text) :
  (length new < length old)%nat →
  ∀ s, Contains s old = true →
    (length (ReplaceAll s old new) < length s)%nat.
Proof.
  intros Hlen. unfold ReplaceAll.
  induction s as [|c s IH]; simpl.
  - destruct old; simpl in *; [lia|done].
  - destruct (HasPrefix (c :: s) old) eqn:Hp; simpl.
    + intros _. apply HasPrefix_length in Hp. simpl in Hp.
      rewrite length_app.
      pose proof (ReplaceAll_from_length old new ltac:(lia) ltac:(lia)
                    s (length old - 1)%nat ltac:(lia)). lia.
    + intros H. apply IH in H. lia.
Qed.

Section WithTables.

Context `{U : UnicodeTables}.

(** The loop that collapses runs of spaces ends within the turns it is
    given: no two adjacent spaces are left. *)
Lemma collapseSpaces_loop_done (fuel : nat) (s : text) :
  (length s ≤ fuel)%nat → Contains (collapseSpaces_loop fuel s) [SP; SP] = false.
Proof.
  revert s. induction fuel as [|fuel IH]; intros s Hlen; simpl.
  - by destruct s; [|simpl in Hlen; lia].
  - destruct (Contains s [SP; SP]) eqn:Hc; [|done].
    apply IH.
    pose proof (ReplaceAll_shorter [SP; SP] [SP] ltac:(simpl; lia) s Hc). lia.
Qed.

Lemma collapseSpaces_done (s : text) :
  Contains (collapseSpaces s) [SP; SP] = false.
Proof. by apply collapseSpaces_loop_done. Qed.

(** *** Passwords *)

(** C4: [ValidatePassword] accepts exactly the strings without a space,
    of 8 to 128 code points, that hold an uppercase letter, a lowercase
    letter, a digit, and a character that is neither letter, digit nor
    white space. *)
Theorem ValidatePassword_accepts_iff (p : text) :
  (ValidatePassword p).1 = true ↔
    (SP ∉ p) ∧
    (8 ≤ RuneCountInString p ≤ 128) ∧
    (∃ c, c ∈ p ∧ IsUpper c = true) ∧
    (∃ c, c ∈ p ∧ IsLower c = true) ∧
    (∃ c, c ∈ p ∧ IsDigit c = true) ∧
    (∃ c, c ∈ p ∧ IsLetter c = false ∧ IsDigit c = false ∧ IsSpace c = false).
Proof.
  rewrite <- (Contains_singleton p SP), <- !existsb_elem_of.
  assert (Hspecial :
    (∃ c, c ∈ p ∧ IsLetter c = false ∧ IsDigit c = false ∧ IsSpace c = false) ↔
    existsb (λ char, negb (IsLetter char) && negb (IsDigit char)
                     && negb (IsSpace char)) p = true).
  { rewrite existsb_elem_of. split; intros (c & Hc & H); exists c; (split; [done|]).
    - destruct H as (-> & -> & ->). done.
    - by destruct (IsLetter c), (IsDigit c), (IsSpace c). }
  rewrite Hspecial. unfold ValidatePassword.
  destruct (RuneCountInString p <? 8) eqn:H8; simpl.
  { split; [done|]. lia. }
  destruct (RuneCountInString p >? 128) eqn:H128; simpl.
  { split; [done|]. lia. }
  destruct (Contains p [SP]); simpl.
  { split; [done|]. by intros [? _]. }
  destruct (existsb IsUpper p); simpl; [|split; [done|]; by intros (_&_&?&_)].
  destruct (existsb IsLower p); simpl; [|split; [done|]; by intros (_&_&_&?&_)].
  destruct (existsb IsDigit p); simpl; [|split; [done|]; by intros (_&_&_&_&?&_)].
  destruct (existsb _ p); simpl; [|split; [done|]; by intros (_&_&_&_&_&?)].
  split; [|done]. intros _. repeat split; try done; lia.
Qed.

(** *** Combining marks *)

Lemma excessiveCombining_run (run post : text) : ∀ count,
  0 ≤ count → Forall (λ r, isCombiningChar r = true) run →
  5 < count + Z.of_nat (length run) →
  count ≤ 5 →
  excessiveCombining count (run ++ post) = true.
Proof.
  induction run as [|r run IH]; intros count H0 Hrun Hlen H5; simpl in *.
  - lia.
  - apply Forall_cons in Hrun as [-> Hrun].
    unfold maxConsecutiveCombining.
    destruct (count + 1 >? 5) eqn:Hgt; [done|].
    apply IH; try done; lia.
Qed.

Lemma excessiveCombining_excessiveRun (s : text) :
  excessiveRun s → excessiveCombining 0 s = true.
Proof.
  intros (pre & run & post & -> & Hlen & Hrun).
  assert (Hgen : ∀ count, (0 ≤ count ≤ 5) →
            excessiveCombining count (pre ++ run ++ post) = true);
    [|apply Hgen; lia].
  induction pre as [|r pre IH]; intros count Hc; simpl.
  - apply excessiveCombining_run; try done; lia.
  - destruct (isCombiningChar r).
    + unfold maxConsecutiveCombining.
      destruct (count + 1 >? 5) eqn:Hgt; [done|]. apply IH. lia.
    + apply IH. lia.
Qed.

(** The screen rejects every string with a run of more than 5 marks. *)
Lemma ValidateTextSafety_excessiveRun (s : text) :
  excessiveRun s → ValidateTextSafety s = (false, msgExcessive).
Proof.
  intros Hrun. unfold ValidateTextSafety.
  rewrite (excessiveCombining_excessiveRun s Hrun).
  destruct Hrun as (pre & [|r run] & post & -> & Hlen & _); [simpl in Hlen; lia|].
  by destruct pre.
Qed.

(** C6, as the code has it: the screen rejects, with the
    excessive-special-characters reason, every string in which more than
    5 consecutive combining marks appear; a validator applies the screen to
    the cleaned (and normalised) form of its input, after its check on
    spaces, so it rejects with that reason when the run is still there
    after cleaning and the check on spaces passes. *)
Theorem excessive_marks_rejected_after_cleaning :
  (∀ s, excessiveRun s → ValidateTextSafety s = (false, msgExcessive)) ∧
  (∀ username,
     excessiveRun (CleanText username) → SP ∉ CleanText username →
     ValidateUsername username = (false, msgExcessive)) ∧
  (∀ title,
     excessiveRun (normalizeTitle title) →
     normalizeTitle title = TrimSpace (normalizeTitle title) →
     ValidatePostTitle title = (false, msgExcessive)) ∧
  (∀ content,
     excessiveRun (normalizeContent content) →
     normalizeContent content = TrimSpace (normalizeContent content) →
     ValidatePostContent content = (false, msgExcessive)) ∧
  (∀ content,
     excessiveRun (normalizeContent content) →
     normalizeContent content = TrimSpace (normalizeContent content) →
     ValidateCommentContent content = (false, msgExcessive)).
Proof.
  split; [exact ValidateTextSafety_excessiveRun|].
  split; [|split; [|split]].
  - intros username Hrun Hsp. unfold ValidateUsername.
    destruct (Contains (CleanText username) [SP]) eqn:Hc.
    + by apply Contains_singleton in Hc.
    + by rewrite (ValidateTextSafety_excessiveRun _ Hrun).
  - intros title Hrun Htrim. unfold ValidatePostTitle.
    rewrite bool_decide_eq_true_2 by done. simpl.
    by rewrite (ValidateTextSafety_excessiveRun _ Hrun).
  - intros content Hrun Htrim. unfold ValidatePostContent.
    rewrite bool_decide_eq_true_2 by done. simpl.
    by rewrite (ValidateTextSafety_excessiveRun _ Hrun).
  - intros content Hrun Htrim. unfold ValidateCommentContent.
    rewrite bool_decide_eq_true_2 by done. simpl.
    by rewrite (ValidateTextSafety_excessiveRun _ Hrun).
Qed.

(** *** Titles *)

Lemma TrimSpace_nil : TrimSpace [] = [].
Proof. done. Qed.

(** C7, as the code has it: a title whose cleaned and normalised form
    trims to the empty string is rejected; the reason is the
    required-field one when that form is itself empty, and the
    boundary-space one when it is not (spaces or line breaks only), since
    the check on boundary spaces comes first. *)
Theorem ValidatePostTitle_blank (title : text) :
  TrimSpace (normalizeTitle title) = [] →
  (normalizeTitle title = [] →
     ValidatePostTitle title = (false, msgTitleRequired)) ∧
  (normalizeTitle title ≠ [] →
     ValidatePostTitle title = (false, msgTitleSpaces)).
Proof.
  intros Htrim. unfold ValidatePostTitle. rewrite Htrim. split.
  - intros ->. done.
  - intros Hne. by rewrite bool_decide_eq_false_2.
Qed.

(** *** User names *)

Lemma not_combining_below_0300 (r : rune) :
  r < 0x0300 → isCombiningChar r = false.
Proof.
  intros Hr. unfold isCombiningChar.
  destruct (unicode_In r [Mn; Mc; Me]) eqn:E; [|done].
  apply marks_from_0300 in E. lia.
Qed.

(** A rune that is no control character, no mark and not in a dangerous
    range goes through [CleanText]. *)
Lemma CleanText_loop_keeps (r : rune) :
  isControlChar r = false → isCombiningChar r = false →
  isDangerousUnicode r = false →
  ∀ s count, r ∈ s → r ∈ CleanText_loop count s.
Proof.
  intros Hc Hm Hd. induction s as [|x s IH]; intros count Hin.
  - inversion Hin.
  - apply elem_of_cons in Hin as [<-|Hin]; simpl.
    + rewrite Hc, Hm, Hd. by left.
    + repeat case_match; try apply elem_of_cons; auto.
Qed.

Lemma CleanText_keeps_space (s : text) : SP ∈ s → SP ∈ CleanText s.
Proof.
  intros Hin. unfold CleanText. destruct s as [|x s]; [done|].
  apply CleanText_loop_keeps; try done.
  by apply not_combining_below_0300.
Qed.

Lemma CleanText_loop_length (s : text) : ∀ count,
  (length (CleanText_loop count s) ≤ length s)%nat.
Proof.
  induction s as [|x s IH]; intros count; simpl; [lia|].
  pose proof (IH count). pose proof (IH (count + 1)). pose proof (IH 0).
  repeat case_match; simpl; lia.
Qed.

Lemma CleanText_length (s : text) : (length (CleanText s) ≤ length s)%nat.
Proof. destruct s; [done|]. apply CleanText_loop_length. Qed.

(** C8, as the code has it: a string accepted by [ValidateUsername]
    holds no space and has at least 3 code points, and its cleaned form,
    which is what the validator measures, has 3 to 50 code points, each
    an ASCII letter, a digit, an underscore or a hyphen. *)
Theorem ValidateUsername_accepted (s : text) :
  (ValidateUsername s).1 = true →
  (SP ∉ s) ∧
  3 ≤ RuneCountInString s ∧
  (3 ≤ RuneCountInString (CleanText s) ≤ 50) ∧
  ∀ r, r ∈ CleanText s →
    (0x61 ≤ r ≤ 0x7A) ∨ (0x41 ≤ r ≤ 0x5A) ∨ (0x30 ≤ r ≤ 0x39) ∨
    r = 0x5F ∨ r = 0x2D.
Proof.
  unfold ValidateUsername.
  destruct (Contains (CleanText s) [SP]) eqn:Hsp; [done|].
  destruct (ValidateTextSafety (CleanText s)) as [valid errMsg].
  destruct valid; simpl; [|done].
  destruct (RuneCountInString (CleanText s) <? 3) eqn:H3; [done|].
  destruct (RuneCountInString (CleanText s) >? 50) eqn:H50; [done|].
  destruct (validUsername_MatchString (CleanText s)) eqn:Hre; [|done].
  intros _. split; [|split; [|split]].
  - intros Hin. apply CleanText_keeps_space, Contains_singleton in Hin.
    congruence.
  - pose proof (CleanText_length s). unfold RuneCountInString in *. lia.
  - lia.
  - intros r Hr. unfold validUsername_MatchString in Hre.
    destruct (CleanText s) as [|x l] eqn:Hcl; [inversion Hr|].
    rewrite forallb_forall in Hre.
    specialize (Hre r (proj1 (list_elem_of_In _ _) Hr)).
    unfold usernameChar in Hre. lia.
Qed.

End WithTables.

(** *** The validators on concrete strings *)

(** ["Password123!"], ["Pass word123!"] and ["password123!"]. *)
Example ValidatePassword_examples :
  ValidatePassword (U := Sample.tables)
    [0x50; 0x61; 0x73; 0x73; 0x77; 0x6F; 0x72; 0x64; 0x31; 0x32; 0x33; 0x21]
    = (true, EmptyString) ∧
  ValidatePassword (U := Sample.tables)
    [0x50; 0x61; 0x73; 0x73; 0x20; 0x77; 0x6F; 0x72; 0x64; 0x31; 0x32; 0x33; 0x21]
    = (false, "Password cannot contain spaces") ∧
  ValidatePassword (U := Sample.tables)
    [0x70; 0x61; 0x73; 0x73; 0x77; 0x6F; 0x72; 0x64; 0x31; 0x32; 0x33; 0x21]
    = (false, "Password must contain at least one uppercase letter").
Proof. by vm_compute. Qed.

(** C5 fails on the code: [a], two acute accents, a zero width space
    and two more acute accents.  The zero width space resets the counter
    and is then dropped, so the four accents end up in a row on the one
    base character. *)
Theorem CleanText_run_of_four_marks :
  let input := [0x61; Sample.ACUTE; Sample.ACUTE; Sample.ZWSP;
                Sample.ACUTE; Sample.ACUTE] in
  CleanText (U := Sample.tables) input
    = [0x61; Sample.ACUTE; Sample.ACUTE; Sample.ACUTE; Sample.ACUTE] ∧
  ∃ pre run post,
    CleanText (U := Sample.tables) input = pre ++ run ++ post ∧
    (2 < length run)%nat ∧
    Forall (λ r, isCombiningChar (U := Sample.tables) r = true) run.
Proof.
  split; [by vm_compute|].
  exists [0x61], (Sample.rep 4 Sample.ACUTE), [].
  split; [by vm_compute|]. split; [simpl; lia|].
  repeat constructor.
Qed.

(** C6 fails as stated: ["Title"] followed by six acute accents has more
    than 5 consecutive combining marks, and [ValidatePostTitle] accepts it,
    the cleaning having kept two of them; [ValidateUsername] rejects ["abc"]
    followed by six acute accents, but for its character set. *)
Lemma excessive_marks_not_rejected :
  let title := [0x54; 0x69; 0x74; 0x6C; 0x65] ++ Sample.rep 6 Sample.ACUTE in
  let username := [0x61; 0x62; 0x63] ++ Sample.rep 6 Sample.ACUTE in
  excessiveRun (U := Sample.tables) title ∧
  ValidatePostTitle (U := Sample.tables) title = (true, EmptyString) ∧
  excessiveRun (U := Sample.tables) username ∧
  ValidateUsername (U := Sample.tables) username
    = (false, "Username can only contain letters, numbers, underscores, and hyphens").
Proof.
  intros title username. repeat split; try by vm_compute.
  - exists [0x54; 0x69; 0x74; 0x6C; 0x65], (Sample.rep 6 Sample.ACUTE), [].
    split; [done|]. split; [simpl; lia|]. repeat constructor.
  - exists [0x61; 0x62; 0x63], (Sample.rep 6 Sample.ACUTE), [].
    split; [done|]. split; [simpl; lia|]. repeat constructor.
Qed.

(** A title in which zero width spaces break up six accents: the run of
    six is there after cleaning, and the title is rejected for it. *)
Lemma excessive_marks_rejected_after_cleaning_witness :
  ValidatePostTitle (U := Sample.tables)
    [0x54; Sample.ACUTE; Sample.ACUTE; Sample.ZWSP; Sample.ACUTE; Sample.ACUTE;
     Sample.ZWSP; Sample.ACUTE; Sample.ACUTE]
  = (false, msgExcessive).
Proof.
  refine (proj1 (proj2 (proj2
    (excessive_marks_rejected_after_cleaning (U := Sample.tables)))) _ _ _).
  - exists [0x54], (Sample.rep 6 Sample.ACUTE), [].
    split; [by vm_compute|]. split; [simpl; lia|]. repeat constructor.
  - by vm_compute.
Defined.

(** C7 fails as stated: three spaces are cleaned and normalised to one
    space, which trims to the empty string, and the reason given is the
    boundary-space one. *)
Lemma ValidatePostTitle_spaces_only :
  TrimSpace (U := Sample.tables) (normalizeTitle (U := Sample.tables) [SP; SP; SP]) = [] ∧
  ValidatePostTitle (U := Sample.tables) [SP; SP; SP] = (false, msgTitleSpaces) ∧
  ValidatePostTitle (U := Sample.tables) [SP; SP; SP] ≠ (false, msgTitleRequired).
Proof. repeat split; by vm_compute. Qed.

(** A title of one BEL is cleaned to the empty string; a title of two
    line feeds is normalised to one space. *)
Lemma ValidatePostTitle_blank_witness :
  ValidatePostTitle (U := Sample.tables) [0x07] = (false, msgTitleRequired) ∧
  ValidatePostTitle (U := Sample.tables) [LF; LF] = (false, msgTitleSpaces).
Proof.
  split.
  - refine (proj1 (ValidatePostTitle_blank (U := Sample.tables) [0x07] _) _);
      by vm_compute.
  - refine (proj2 (ValidatePostTitle_blank (U := Sample.tables) [LF; LF] _) _);
      by vm_compute.
Defined.

(** C8 fails as stated: ["abc"] followed by 48 BEL characters is
    accepted, being cleaned to ["abc"]; it has 51 code points, and BEL is
    no letter, digit, underscore or hyphen. *)
Lemma ValidateUsername_accepts_control_chars :
  let s := [0x61; 0x62; 0x63] ++ Sample.rep 48 0x07 in
  ValidateUsername (U := Sample.tables) s = (true, EmptyString) ∧
  RuneCountInString s = 51 ∧
  0x07 ∈ s ∧ usernameChar 0x07 = false.
Proof.
  intros s. repeat split; try by vm_compute.
  apply (bool_decide_unpack _). by vm_compute.
Qed.

(** ["a-b_9"] with a zero width space at its end is accepted. *)
Lemma ValidateUsername_accepted_witness :
  (SP ∉ [0x61; 0x2D; 0x62; 0x5F; 0x39; Sample.ZWSP]) ∧
  (3 ≤ RuneCountInString
         (CleanText (U := Sample.tables) [0x61; 0x2D; 0x62; 0x5F; 0x39; Sample.ZWSP])
     ≤ 50).
Proof.
  pose proof (ValidateUsername_accepted (U := Sample.tables)
                [0x61; 0x2D; 0x62; 0x5F; 0x39; Sample.ZWSP] eq_refl)
    as (H1 & _ & H2 & _).
  by split.
Defined.

End ValidationTheory.

(** ** Vote toggler: the other methods *)

Module LikesMore.

Import LikesService.

Ltac run_method :=
  unfold LikePost, DislikePost, LikeComment, DislikeComment,
         RemovePostVote, RemoveCommentVote, GetUserPostVote, GetUserCommentVote,
         postExists, commentExists, GetPostLikeCounts;
  unfold mbind, M_bind, ret, mret, M_ret, QueryRow, Exec; simpl.

Ltac by_compute := apply (bool_decide_unpack _); by vm_compute.

Local Abbreviation sent k c U T stmt :=
  (log c ++ [OpQuery (SelectExists k T); OpQuery (SelectVote k U T); OpExec stmt]).

Lemma LikeComment_run now U T c :
  U ∈ dom (users (db c)) → T ∈ comments (db c) →
  LikeComment now U T c =
    match comment_likes (db c) !! (U, T) with
    | None =>
        (None, mkConn (set_votes Comment (<[(U, T) := true]> (comment_likes (db c))) (db c))
                      (sent Comment c U T (InsertVote Comment U T true)))
    | Some true =>
        (None, mkConn (set_votes Comment (delete (U, T) (comment_likes (db c))) (db c))
                      (sent Comment c U T (DeleteVote Comment U T)))
    | Some false =>
        (None, mkConn (set_votes Comment (<[(U, T) := true]> (comment_likes (db c))) (db c))
                      (sent Comment c U T (UpdateVote Comment U T true)))
    end.
Proof.
  intros HU HP. run_method.
  rewrite decide_True by done. simpl.
  destruct (comment_likes (db c) !! (U, T)) as [[|]|] eqn:Hm; simpl;
    rewrite <- ?(assoc_L (++)); simpl.
  - done.
  - by rewrite (LikesTheory.alter_present _ _ false).
  - rewrite Hm. rewrite decide_False by (by intros [? ?]).
    rewrite decide_True by done. done.
Qed.

Lemma DislikeComment_run now U T c :
  U ∈ dom (users (db c)) → T ∈ comments (db c) →
  DislikeComment now U T c =
    match comment_likes (db c) !! (U, T) with
    | None =>
        (None, mkConn (set_votes Comment (<[(U, T) := false]> (comment_likes (db c))) (db c))
                      (sent Comment c U T (InsertVote Comment U T false)))
    | Some false =>
        (None, mkConn (set_votes Comment (delete (U, T) (comment_likes (db c))) (db c))
                      (sent Comment c U T (DeleteVote Comment U T)))
    | Some true =>
        (None, mkConn (set_votes Comment (<[(U, T) := false]> (comment_likes (db c))) (db c))
                      (sent Comment c U T (UpdateVote Comment U T false)))
    end.
Proof.
  intros HU HP. run_method.
  rewrite decide_True by done. simpl.
  destruct (comment_likes (db c) !! (U, T)) as [[|]|] eqn:Hm; simpl;
    rewrite <- ?(assoc_L (++)); simpl.
  - by rewrite (LikesTheory.alter_present _ _ true).
  - done.
  - rewrite Hm. rewrite decide_False by (by intros [? ?]).
    rewrite decide_True by done. done.
Qed.



(** The rows of the store that a vote of [U] on target [T] of kind [k]
    may not touch. *)
Local Abbreviation untouched k U T d d' :=
  (users d' = users d ∧ sessions d' = sessions d ∧
   posts d' = posts d ∧ comments d' = comments d ∧
   (∀ k', k' ≠ k → votes k' d' = votes k' d) ∧
   (∀ i, i ≠ (U, T) → votes k d' !! i = votes k d !! i)).

Lemma Exec_db now s c : db (Exec now s c).2 = (exec now s (db c)).2.
Proof. unfold Exec. by destruct (exec now s (db c)). Qed.

Lemma exec_InsertVote_untouched now k U T b d :
  untouched k U T d (exec now (InsertVote k U T b) d).2.
Proof.
  simpl; repeat case_decide; simpl; destruct k; simpl; repeat split;
    try done; try (by intros []); intros i Hi; by rewrite lookup_insert_ne.
Qed.

Lemma exec_DeleteVote_untouched now k U T d :
  untouched k U T d (exec now (DeleteVote k U T) d).2.
Proof.
  simpl; destruct k; simpl; repeat split;
    try done; try (by intros []); intros i Hi; by rewrite lookup_delete_ne.
Qed.

Lemma exec_UpdateVote_untouched now k U T b d :
  untouched k U T d (exec now (UpdateVote k U T b) d).2.
Proof.
  simpl; destruct k; simpl; repeat split;
    try done; try (by intros []); intros i Hi; by rewrite lookup_alter_ne.
Qed.

(** X2: a vote, or the removal of a vote, by [U] on target [T] changes
    at most the row [(U, T)] of its own table, whether it succeeds or
    fails: every other vote row, the other vote table, and the users,
    sessions, posts and comments are as before. *)
Theorem vote_touches_one_row now (U T : Z) (c : Conn) :
  untouched Post U T (db c) (db (LikePost now U T c).2) ∧
  untouched Post U T (db c) (db (DislikePost now U T c).2) ∧
  untouched Post U T (db c) (db (RemovePostVote now U T c).2) ∧
  untouched Comment U T (db c) (db (LikeComment now U T c).2) ∧
  untouched Comment U T (db c) (db (DislikeComment now U T c).2) ∧
  untouched Comment U T (db c) (db (RemoveCommentVote now U T c).2).
Proof.
  assert (Hsame : ∀ k, untouched k U T (db c) (db c)) by (intros k; by repeat split).
  split; [|split; [|split; [|split; [|split]]]].
  all: unfold LikePost, DislikePost, LikeComment, DislikeComment,
         RemovePostVote, RemoveCommentVote, postExists, commentExists;
       unfold mbind, M_bind, ret, mret, M_ret, QueryRow; cbn -[Exec].
  all: try (destruct (decide (T ∈ _)); cbn -[Exec]; [|apply Hsame]).
  all: try (destruct (_ !! (U, T)) as [[|]|] eqn:Hm; cbn -[Exec]).
  all: rewrite Exec_db; cbn [db].
  all: first [ apply exec_InsertVote_untouched
             | apply exec_DeleteVote_untouched
             | apply exec_UpdateVote_untouched ].
Qed.

(** Every vote row refers to a row of [users] and to a row of the table
    of its targets. *)
Local Abbreviation refers d :=
  (∀ k u t b, votes k d !! (u, t) = Some b → u ∈ dom (users d) ∧ t ∈ targets k d).

Lemma exec_vote_refers now s d :
  (∃ k u t b, s = InsertVote k u t b) ∨ (∃ k u t, s = DeleteVote k u t) ∨
  (∃ k u t b, s = UpdateVote k u t b) →
  refers d → refers (exec now s d).2.
Proof.
  intros Hs Hinv k' u' t' b'.
  destruct Hs as [(k & u & t & b & ->)|[(k & u & t & ->)|(k & u & t & b & ->)]];
    simpl; repeat case_decide; simpl; try apply Hinv.
  - destruct k, k'; simpl; try apply (Hinv Post); try apply (Hinv Comment).
    all: destruct (decide ((u, t) = (u', t'))) as [[= <- <-]|Hne];
      [rewrite lookup_insert_eq; intros _; tauto
      |rewrite lookup_insert_ne by done].
    + apply (Hinv Post).
    + apply (Hinv Comment).
  - destruct k, k'; simpl; try apply (Hinv Post); try apply (Hinv Comment).
    all: intros Hl; apply lookup_delete_Some in Hl as [_ Hl].
    + by apply (Hinv Post) in Hl.
    + by apply (Hinv Comment) in Hl.
  - destruct k, k'; simpl; try apply (Hinv Post); try apply (Hinv Comment).
    all: intros Hl; apply lookup_alter_Some in Hl as [(_ & x & Hl & _)|[_ Hl]].
    + by apply (Hinv Post) in Hl.
    + by apply (Hinv Post) in Hl.
    + by apply (Hinv Comment) in Hl.
    + by apply (Hinv Comment) in Hl.
Qed.

(** X3: referential integrity of the vote tables is an invariant of the
    six methods that write them: if every vote row refers to an existing
    user and an existing target before the call, so it does after it. *)
Theorem votes_refer_invariant now (U T : Z) (c : Conn) :
  refers (db c) →
  refers (db (LikePost now U T c).2) ∧
  refers (db (DislikePost now U T c).2) ∧
  refers (db (RemovePostVote now U T c).2) ∧
  refers (db (LikeComment now U T c).2) ∧
  refers (db (DislikeComment now U T c).2) ∧
  refers (db (RemoveCommentVote now U T c).2).
Proof.
  intros Hinv.
  split; [|split; [|split; [|split; [|split]]]].
  all: unfold LikePost, DislikePost, LikeComment, DislikeComment,
         RemovePostVote, RemoveCommentVote, postExists, commentExists;
       unfold mbind, M_bind, ret, mret, M_ret, QueryRow; cbn -[Exec].
  all: try (destruct (decide (T ∈ _)); cbn -[Exec]; [|apply Hinv]).
  all: try (destruct (_ !! (U, T)) as [[|]|] eqn:Hm; cbn -[Exec]).
  all: rewrite Exec_db; cbn [db]; apply exec_vote_refers; [|apply Hinv].
  all: eauto 10.
Qed.

(** The sample store has no votes, and keeps the invariant through a
    like of user 2 on post 1. *)
Lemma votes_refer_invariant_witness :
  2 ∈ dom (users (db (LikePost 0 2 1 Sample.conn0).2)) ∧
  1 ∈ targets Post (db (LikePost 0 2 1 Sample.conn0).2).
Proof.
  refine (proj1 (votes_refer_invariant 0 2 1 Sample.conn0 _) Post 2 1 true _).
  - intros [] u t b; simpl; by rewrite lookup_empty.
  - by vm_compute.
Defined.

(** X4: a like or dislike by a user id that has no row in [users], on an
    existing target on which that id has no vote row, is not refused by
    the service itself: it sends the existence check, the read of the
    vote row and the INSERT, in that order, returns the foreign-key error
    of the INSERT, and leaves the tables as they were. *)
Theorem vote_by_unknown_user now (U T : Z) (c : Conn) :
  U ∉ dom (users (db c)) →
  let fk := Some (ErrConstraint "FOREIGN KEY constraint failed") in
  (T ∈ posts (db c) → post_likes (db c) !! (U, T) = None →
     LikePost now U T c
       = (fk, mkConn (db c) (sent Post c U T (InsertVote Post U T true))) ∧
     DislikePost now U T c
       = (fk, mkConn (db c) (sent Post c U T (InsertVote Post U T false)))) ∧
  (T ∈ comments (db c) → comment_likes (db c) !! (U, T) = None →
     LikeComment now U T c
       = (fk, mkConn (db c) (sent Comment c U T (InsertVote Comment U T true))) ∧
     DislikeComment now U T c
       = (fk, mkConn (db c) (sent Comment c U T (InsertVote Comment U T false)))).
Proof.
  intros HU fk. subst fk.
  split; intros HT Hm; run_method; rewrite decide_True by done; simpl;
    rewrite Hm; simpl;
    repeat (rewrite decide_False
              by (rewrite ?Hm; first [tauto | by intros [? ?]]));
    rewrite <- ?(assoc_L (++)); done.
Qed.

(** User 9 has no row in the sample store and likes post 1. *)
Lemma vote_by_unknown_user_witness :
  LikePost 0 9 1 Sample.conn0
  = (Some (ErrConstraint "FOREIGN KEY constraint failed"),
     mkConn Sample.db0
       [OpQuery (SelectExists Post 1); OpQuery (SelectVote Post 9 1);
        OpExec (InsertVote Post 9 1 true)]).
Proof.
  assert (HU : 9 ∉ dom (users (db Sample.conn0)))
    by (intros H; by apply (bool_decide_pack _) in H).
  destruct (proj1 (vote_by_unknown_user 0 9 1 Sample.conn0 HU)) as (H1 & _).
  - by_compute.
  - reflexivity.
  - exact H1.
Defined.

Lemma GetUserPostVote_run now U P c :
  GetUserPostVote now U P c =
    ((post_likes (db c) !! (U, P), None),
     mkConn (db c) (log c ++ [OpQuery (SelectVote Post U P)])).
Proof. run_method. by destruct (post_likes (db c) !! (U, P)). Qed.

Lemma GetUserCommentVote_run now U T c :
  GetUserCommentVote now U T c =
    ((comment_likes (db c) !! (U, T), None),
     mkConn (db c) (log c ++ [OpQuery (SelectVote Comment U T)])).
Proof. run_method. by destruct (comment_likes (db c) !! (U, T)). Qed.

(** X5: what a user reads back after voting.  For an existing user and
    target, [GetUserPostVote] after [LikePost] gives [true], or no vote
    when the stored vote was already a like; after [DislikePost] it gives
    [false], or no vote when the stored vote was already a dislike; and
    the same for comments. *)
Theorem vote_read_back now (U P T : Z) (c : Conn) :
  U ∈ dom (users (db c)) →
  (P ∈ posts (db c) →
     (GetUserPostVote now U P (LikePost now U P c).2).1
       = (match post_likes (db c) !! (U, P) with
          | Some true => None | _ => Some true end, None) ∧
     (GetUserPostVote now U P (DislikePost now U P c).2).1
       = (match post_likes (db c) !! (U, P) with
          | Some false => None | _ => Some false end, None)) ∧
  (T ∈ comments (db c) →
     (GetUserCommentVote now U T (LikeComment now U T c).2).1
       = (match comment_likes (db c) !! (U, T) with
          | Some true => None | _ => Some true end, None) ∧
     (GetUserCommentVote now U T (DislikeComment now U T c).2).1
       = (match comment_likes (db c) !! (U, T) with
          | Some false => None | _ => Some false end, None)).
Proof.
  intros HU. split; intros HT.
  - rewrite !GetUserPostVote_run,
      (LikesTheory.LikePost_run now U P c HU HT),
      (LikesTheory.DislikePost_run now U P c HU HT).
    destruct (post_likes (db c) !! (U, P)) as [[|]|]; simpl;
      by rewrite ?lookup_insert_eq, ?lookup_delete_eq.
  - rewrite !GetUserCommentVote_run,
      (LikeComment_run now U T c HU HT), (DislikeComment_run now U T c HU HT).
    destruct (comment_likes (db c) !! (U, T)) as [[|]|]; simpl;
      by rewrite ?lookup_insert_eq, ?lookup_delete_eq.
Qed.

Lemma vote_read_back_witness :
  (GetUserPostVote 0 2 1 (LikePost 0 2 1 Sample.conn0).2).1 = (Some true, None) ∧
  (GetUserCommentVote 0 2 1 (DislikeComment 0 2 1 Sample.conn0).2).1
    = (Some false, None).
Proof.
  assert (HU : 2 ∈ dom (users (db Sample.conn0))) by by_compute.
  destruct (vote_read_back 0 2 1 1 Sample.conn0 HU) as [HP HT].
  split.
  - apply HP. by_compute.
  - apply HT. by_compute.
Defined.

(** X6: [RemovePostVote] and [RemoveCommentVote] check nothing and never
    fail, for every user id and target id: each sends one DELETE, and
    nothing else, and returns no error.  The row of the user is gone
    afterwards, a second removal changes nothing more, and a removal
    without a stored vote leaves the tables as they were.  For an existing
    user and target, a removal after a first like restores the tables as
    they were before the like, and a like after a removal stores a like,
    whatever the vote was before the removal. *)
Theorem remove_vote now (U P T : Z) (c : Conn) :
  let rp := RemovePostVote now U P in
  let rc := RemoveCommentVote now U T in
  rp c = (None, mkConn (set_votes Post (delete (U, P) (post_likes (db c))) (db c))
                       (log c ++ [OpExec (DeleteVote Post U P)])) ∧
  rc c = (None, mkConn (set_votes Comment (delete (U, T) (comment_likes (db c)))
                          (db c))
                       (log c ++ [OpExec (DeleteVote Comment U T)])) ∧
  (GetUserPostVote now U P (rp c).2).1 = (None, None) ∧
  (GetUserCommentVote now U T (rc c).2).1 = (None, None) ∧
  db ((_ ← rp; rp) c).2 = db (rp c).2 ∧
  db ((_ ← rc; rc) c).2 = db (rc c).2 ∧
  (post_likes (db c) !! (U, P) = None → db (rp c).2 = db c) ∧
  (comment_likes (db c) !! (U, T) = None → db (rc c).2 = db c) ∧
  (U ∈ dom (users (db c)) → P ∈ posts (db c) →
     (post_likes (db c) !! (U, P) = None →
        db ((_ ← LikePost now U P; rp) c).2 = db c) ∧
     db ((_ ← rp; LikePost now U P) c).2
       = set_votes Post (<[(U, P) := true]> (post_likes (db c))) (db c)) ∧
  (U ∈ dom (users (db c)) → T ∈ comments (db c) →
     (comment_likes (db c) !! (U, T) = None →
        db ((_ ← LikeComment now U T; rc) c).2 = db c) ∧
     db ((_ ← rc; LikeComment now U T) c).2
       = set_votes Comment (<[(U, T) := true]> (comment_likes (db c))) (db c)).
Proof.
  intros rp rc. subst rp rc.
  rewrite GetUserPostVote_run, GetUserCommentVote_run.
  split; [done|]. split; [done|].
  repeat split; try (run_method; by rewrite ?lookup_delete_eq).
  - run_method. by rewrite delete_delete_eq.
  - run_method. by rewrite delete_delete_eq.
  - intros Hm. run_method. rewrite delete_id by done.
    apply (LikesTheory.set_votes_same Post).
  - intros Hm. run_method. rewrite delete_id by done.
    apply (LikesTheory.set_votes_same Comment).
  - intros Hm. unfold mbind, M_bind.
    rewrite (LikesTheory.LikePost_run now U P c) by done. rewrite Hm. run_method.
    rewrite delete_insert_eq, delete_id by done.
    apply (LikesTheory.set_votes_same Post).
  - unfold mbind, M_bind, RemovePostVote, Exec. cbn [exec db].
    rewrite LikesTheory.LikePost_run by (by destruct (db c)).
    cbn [db post_likes set_votes votes]. rewrite lookup_delete_eq.
    cbn [db]. destruct (db c); cbn. by rewrite insert_delete_eq.
  - intros Hm. unfold mbind, M_bind.
    rewrite (LikeComment_run now U T c) by done. rewrite Hm. run_method.
    rewrite delete_insert_eq, delete_id by done.
    apply (LikesTheory.set_votes_same Comment).
  - unfold mbind, M_bind, RemoveCommentVote, Exec. cbn [exec db].
    rewrite LikeComment_run by (by destruct (db c)).
    cbn [db comment_likes set_votes votes]. rewrite lookup_delete_eq.
    cbn [db]. destruct (db c); cbn. by rewrite insert_delete_eq.
Qed.

(** User 2 likes post 1 of the sample store and takes the like back. *)
Lemma remove_vote_witness :
  db ((_ ← LikePost 0 2 1; RemovePostVote 0 2 1) Sample.conn0).2 = Sample.db0.
Proof.
  refine (proj1 (proj1 (proj2 (proj2 (proj2 (proj2 (proj2 (proj2 (proj2 (proj2
            (remove_vote 0 2 1 1 Sample.conn0))))))))) _ _) _);
    [by_compute | by_compute | reflexivity].
Defined.

(** *** Counting votes *)

Lemma sum_fmap_perm {A} (f : A → Z) (l1 l2 : list A) :
  l1 ≡ₚ l2 → foldr Z.add 0 (f <$> l1) = foldr Z.add 0 (f <$> l2).
Proof. induction 1; csimpl in *; lia. Qed.

(** SUM(CASE WHEN ... THEN 1 ELSE 0 END) over the rows of a table counts
    the rows that satisfy the condition. *)
Lemma sum_indicator (f : bool → Z) (g : bool → bool) (M : gmap (Z * Z) bool) :
  (∀ b, f b = if g b then 1 else 0) →
  foldr Z.add 0 ((λ r : Z * Z * bool, f r.2) <$> map_to_list M)
  = Z.of_nat (size (filter (λ kv : Z * Z * bool, g kv.2 = true) M)).
Proof.
  intros Hf. induction M as [|i x M Hi IH] using map_ind.
  - by rewrite map_to_list_empty, map_filter_empty.
  - rewrite (sum_fmap_perm _ _ _ (map_to_list_insert M i x Hi)). csimpl.
    rewrite IH, Hf. destruct (g x) eqn:Hg.
    + rewrite map_filter_insert_True by done.
      rewrite map_size_insert_None; [lia|].
      apply map_lookup_filter_None. by left.
    + rewrite map_filter_insert_not'; [lia|simpl; congruence|].
      intros y Hy. congruence.
Qed.

Lemma sql_sum_rows {A} (f : A → Z) (l : list A) :
  l ≠ [] → sql_sum (f <$> l) = VInt (foldr Z.add 0 (f <$> l)).
Proof. by destruct l. Qed.

Local Abbreviation likes_of P m :=
  (filter (λ kv : Z * Z * bool, kv.1.2 = P ∧ kv.2 = true) m).
Local Abbreviation dislikes_of P m :=
  (filter (λ kv : Z * Z * bool, kv.1.2 = P ∧ kv.2 = false) m).

Lemma filter_filter_votes (P : Z) (b : bool) (m : gmap (Z * Z) bool) :
  filter (λ kv : Z * Z * bool, kv.2 = b)
         (filter (λ kv : Z * Z * bool, kv.1.2 = P) m)
  = filter (λ kv : Z * Z * bool, kv.1.2 = P ∧ kv.2 = b) m.
Proof.
  rewrite map_filter_filter. apply map_filter_ext.
  intros [u p] v _. simpl. tauto.
Qed.

Lemma vote_rows_some (P u : Z) (b : bool) (m : gmap (Z * Z) bool) :
  m !! (u, P) = Some b → vote_rows P m ≠ [].
Proof.
  intros Hm Hnil. unfold vote_rows in Hnil.
  apply map_to_list_empty_iff in Hnil.
  assert (Hf : filter (λ kv : Z * Z * bool, kv.1.2 = P) m !! (u, P) = Some b)
    by (by apply map_lookup_filter_Some).
  by rewrite Hnil, lookup_empty in Hf.
Qed.

Lemma GetPostLikeCounts_run now (P : Z) (c : Conn) :
  vote_rows P (post_likes (db c)) ≠ [] →
  GetPostLikeCounts now P c =
    ((Z.of_nat (size (likes_of P (post_likes (db c)))),
      Z.of_nat (size (dislikes_of P (post_likes (db c)))), None),
     mkConn (db c) (log c ++ [OpQuery (SelectLikeCounts P)])).
Proof.
  intros Hrows.
  unfold GetPostLikeCounts, mbind, M_bind, ret, mret, M_ret, QueryRow.
  cbn -[sql_sum vote_rows fmap].
  rewrite !sql_sum_rows by done. unfold vote_rows.
  rewrite (sum_indicator (λ b : bool, if b then 1 else 0) id) by done.
  rewrite (sum_indicator (λ b : bool, if b then 0 else 1) negb)
    by (by intros []).
  rewrite (filter_filter_votes P true).
  replace (filter (λ kv : Z * Z * bool, negb kv.2 = true)
             (filter (λ kv : Z * Z * bool, kv.1.2 = P) (post_likes (db c))))
    with (dislikes_of P (post_likes (db c))); [done|].
  rewrite <- (filter_filter_votes P false). apply map_filter_ext.
  intros i [] _; simpl; split; congruence.
Qed.

(** X7: for a post with at least one vote row, [GetPostLikeCounts]
    returns, without error, the number of its rows with [is_like = true]
    and the number of its rows with [is_like = false]. *)
Theorem GetPostLikeCounts_counts now (P u : Z) (b : bool) (c : Conn) :
  post_likes (db c) !! (u, P) = Some b →
  (GetPostLikeCounts now P c).1 =
    (Z.of_nat (size (filter (λ kv : Z * Z * bool, kv.1.2 = P ∧ kv.2 = true)
                            (post_likes (db c)))),
     Z.of_nat (size (filter (λ kv : Z * Z * bool, kv.1.2 = P ∧ kv.2 = false)
                            (post_likes (db c)))),
     None).
Proof.
  intros Hm. rewrite GetPostLikeCounts_run; [done|].
  by apply (vote_rows_some P u b).
Qed.

(** X8: a first like of an existing user on an existing post raises the
    like count of the post by one and leaves its dislike count; on a post
    without votes the counts become (1, 0). *)
Theorem first_like_counts now (U P : Z) (c : Conn) :
  U ∈ dom (users (db c)) → P ∈ posts (db c) →
  post_likes (db c) !! (U, P) = None →
  (GetPostLikeCounts now P (LikePost now U P c).2).1 =
    (Z.of_nat (size (filter (λ kv : Z * Z * bool, kv.1.2 = P ∧ kv.2 = true)
                            (post_likes (db c)))) + 1,
     Z.of_nat (size (filter (λ kv : Z * Z * bool, kv.1.2 = P ∧ kv.2 = false)
                            (post_likes (db c)))),
     None).
Proof.
  intros HU HP Hm.
  rewrite (LikesTheory.LikePost_run now U P c HU HP), Hm.
  rewrite GetPostLikeCounts_run; simpl;
    [|apply (vote_rows_some P U true), lookup_insert_eq].
  rewrite map_filter_insert_True by done.
  rewrite map_size_insert_None
    by (apply map_lookup_filter_None; by left).
  rewrite map_filter_insert_not'; [|simpl; intros [_ ?]; done|intros y; congruence].
  do 2 f_equal. lia.
Qed.

Lemma GetPostLikeCounts_counts_witness :
  (GetPostLikeCounts 0 1 (DislikePost 0 2 1 Sample.conn0).2).1 = (0, 1, None).
Proof.
  exact (GetPostLikeCounts_counts 0 1 2 false (DislikePost 0 2 1 Sample.conn0).2
           eq_refl).
Defined.

Lemma first_like_counts_witness :
  (GetPostLikeCounts 0 1 (LikePost 0 2 1 Sample.conn0).2).1 = (1, 0, None).
Proof.
  refine (first_like_counts 0 2 1 Sample.conn0 _ _ _);
    [by_compute | by_compute | reflexivity].
Defined.

End LikesMore.

(** ** Session manager: life of a session *)

Module SessionMore.

Import SessionService.

Ltac run_method :=
  unfold CreateSession, GetUserByToken, DeleteSession, CleanExpiredSessions;
  unfold mbind, M_bind, ret, mret, M_ret, QueryRow, Exec; simpl.

Ltac by_compute := apply (bool_decide_unpack _); by vm_compute.

Local Abbreviation mine U m :=
  (filter (λ kv : string * SessionRow, user_id kv.2 = U) m).
Local Abbreviation others U m :=
  (filter (λ kv : string * SessionRow, user_id kv.2 ≠ U) m).

(** What [GetUserByToken] returns depends on the row of the token and on
    the users only. *)
Lemma GetUserByToken_congr now tok c1 c2 :
  sessions (db c1) !! tok = sessions (db c2) !! tok →
  users (db c1) = users (db c2) →
  (GetUserByToken now tok c1).1 = (GetUserByToken now tok c2).1.
Proof.
  intros Hs Hu.
  unfold GetUserByToken, mbind, M_bind, ret, mret, M_ret, QueryRow.
  cbn [db query]. rewrite Hs, Hu.
  by destruct (scan_user_row _) as [[]|[]]; repeat case_match.
Qed.

Lemma GetUserByToken_expired now tok c s :
  sessions (db c) !! tok = Some s → expires_at s < now →
  (GetUserByToken now tok c).1
  = (None, Some (ErrNew "invalid or expired session")).
Proof.
  intros Hs Hexp. run_method. rewrite Hs.
  by rewrite decide_False by lia.
Qed.

(** X9: how long a session lasts.  [CreateSession] succeeds at time
    [now], for a user whose row has its [is_admin] and [created_at] set,
    in a process whose zone is [loc]; [expiry] is the instant 24 hours
    later and [loc expiry] the offset of the zone from UTC then.  The
    token resolves to that user at every reading [now'] of
    CURRENT_TIMESTAMP up to [expiry + loc expiry], that second included,
    and gives the invalid-session error at every later one.  So a session
    lasts 24 hours only for a zone without offset; east of UTC it lasts
    longer by the offset, west of UTC shorter. *)
Theorem session_lifetime (loc : Location) now now' tok (U : Z) (c c' : Conn)
    (row : UserRow) (a : bool) (t : Z) :
  CreateSession loc now (inr tok) U c = ((tok, None), c') →
  users (db c) !! U = Some row →
  is_admin row = Some a → created_at row = Some t →
  let expiry := now + 24 * 3600 in
  (now' ≤ expiry + loc expiry →
     (GetUserByToken now' tok c').1 =
       (Some (mkUser U (uuid row) (username row) (email row) EmptyString
                     (default EmptyString (avatar_url row)) a t 0), None)) ∧
  (expiry + loc expiry < now' →
     (GetUserByToken now' tok c').1
     = (None, Some (ErrNew "invalid or expired session"))).
Proof.
  intros Hrun Hrow Ha Ht expiry. subst expiry.
  apply SessionTheory.CreateSession_ok in Hrun as (_ & _ & _ & Hdb).
  assert (Hs : sessions (db c') !! tok
               = Some (mkSessionRow U (wallClock loc (now + sessionLifetime))))
    by (rewrite Hdb; simpl; apply lookup_insert_eq).
  change (24 * 3600) with sessionLifetime.
  split; intros Hnow.
  - apply (AuthTheory.GetUserByToken_stored now' tok c' _ row a t Hs);
      cbn [expires_at user_id]; try done.
    by rewrite Hdb.
  - apply (GetUserByToken_expired _ _ _ _ Hs).
    cbn [expires_at]. unfold wallClock. lia.
Qed.

(** In a zone five hours east of UTC, as Asia/Almaty is, a login at time
    10 resolves until five hours after the 24 hours, and not a second
    longer. *)
Lemma session_lifetime_witness :
  let c' := (CreateSession Sample.almaty 10 (inr "tokA") 2 Sample.conn0).2 in
  (GetUserByToken (10 + 24 * 3600 + 5 * 3600) "tokA" c').1.2 = None ∧
  (GetUserByToken (10 + 24 * 3600 + 5 * 3600 + 1) "tokA" c').1
    = (None, Some (ErrNew "invalid or expired session")).
Proof.
  intros c'.
  destruct (session_lifetime Sample.almaty 10 (10 + 24 * 3600 + 5 * 3600) "tokA" 2
              Sample.conn0 c' Sample.alice false 100
              eq_refl eq_refl eq_refl eq_refl) as [H1 _].
  destruct (session_lifetime Sample.almaty 10 (10 + 24 * 3600 + 5 * 3600 + 1)
              "tokA" 2 Sample.conn0 c' Sample.alice false 100
              eq_refl eq_refl eq_refl eq_refl) as [_ H2].
  split.
  - rewrite H1; [done|]. unfold Sample.almaty. lia.
  - apply H2. unfold Sample.almaty. lia.
Defined.

(** X10: logout.  [DeleteSession] never fails; afterwards the token gives
    the invalid-session error at any time, every other token resolves as
    before, a second call changes nothing, and a call on a token that is
    not stored leaves the store as it was. *)
Theorem DeleteSession_logout now (tok : string) (c : Conn) :
  let c' := (DeleteSession now tok c).2 in
  (DeleteSession now tok c).1 = None ∧
  (∀ now', (GetUserByToken now' tok c').1
           = (None, Some (ErrNew "invalid or expired session"))) ∧
  (∀ now' tok', tok' ≠ tok →
     (GetUserByToken now' tok' c').1 = (GetUserByToken now' tok' c).1) ∧
  db (DeleteSession now tok c').2 = db c' ∧
  (sessions (db c) !! tok = None → db c' = db c).
Proof.
  intros c'. subst c'. repeat split.
  - intros now'. run_method. by rewrite lookup_delete_eq.
  - intros now' tok' Hne. apply GetUserByToken_congr; [|done].
    simpl. by rewrite lookup_delete_ne.
  - run_method. by rewrite delete_delete_eq.
  - intros Hs. run_method. rewrite delete_id by done. by destruct (db c).
Qed.

(** X11: [CreateSession] is not atomic.  Whatever it returns, it leaves
    the sessions of the other users, and all other tables, as they were;
    when it returns an error (the random source failed, the token is in
    use by another user, or the user has no row), the sessions the user
    had are already deleted, so the user is left with none. *)
Theorem CreateSession_failure (loc : Location) now (entropy : error + string)
    (U : Z) (c : Conn) :
  let r := (CreateSession loc now entropy U c).1 in
  let d' := db (CreateSession loc now entropy U c).2 in
  others U (sessions d') = others U (sessions (db c)) ∧
  users d' = users (db c) ∧ posts d' = posts (db c) ∧
  comments d' = comments (db c) ∧ post_likes d' = post_likes (db c) ∧
  comment_likes d' = comment_likes (db c) ∧
  (r.2 ≠ None → r.1 = EmptyString ∧ mine U (sessions d') = ∅) ∧
  (∀ e, entropy = inl e → r = (EmptyString, Some e)).
Proof.
  intros r d'. subst r d'.
  assert (Hoo : others U (others U (sessions (db c))) = others U (sessions (db c))).
  { rewrite map_filter_filter. apply map_filter_ext. intros ? ? _. simpl. tauto. }
  assert (Hmo : mine U (others U (sessions (db c))) = ∅).
  { apply map_empty_filter. intros i x Hx. simpl.
    apply map_lookup_filter_Some in Hx as [_ Hx]. simpl in Hx. tauto. }
  run_method. destruct entropy as [e|tok]; simpl.
  - repeat split; try done. by intros e' [= ->].
  - repeat case_decide; simpl; repeat split; try done.
    apply SessionTheory.others_insert_mine.
    destruct (others U (sessions (db c)) !! tok) eqn:E; [|done].
    exfalso. eauto.
Qed.

(** The random source fails while user 2 is logged in: the login fails
    and the session of the earlier login is gone. *)
Example CreateSession_failure_logs_out :
  let c1 := (CreateSession Sample.almaty 10 (inr "tokA") 2 Sample.conn0).2 in
  let c2 := (CreateSession Sample.almaty 20 (inl ErrRand) 2 c1).2 in
  (GetUserByToken 30 "tokA" c1).1.2 = None ∧
  (GetUserByToken 30 "tokA" c2).1
    = (None, Some (ErrNew "invalid or expired session")).
Proof. by vm_compute. Qed.

(** X12: [CleanExpiredSessions] never fails and deletes exactly the rows
    whose stored [expires_at] compares less than CURRENT_TIMESTAMP.  For
    the session of a [CreateSession] that has just succeeded, at time
    [t0] in a process of zone [loc], this is the case exactly when
    [now] is later than [t0 + 24h + loc (t0 + 24h)]: it is the wall clock
    of the zone that was stored.  The rows deleted are rows that
    [GetUserByToken] refuses at that time and afterwards, so the cleaning
    makes no difference to any lookup at that time or later. *)
Theorem CleanExpiredSessions_invisible now (c : Conn) :
  let c' := (CleanExpiredSessions now c).2 in
  (CleanExpiredSessions now c).1 = None ∧
  (∀ tok, sessions (db c') !! tok =
          match sessions (db c) !! tok with
          | Some s => if decide (expires_at s < now) then None else Some s
          | None => None
          end) ∧
  (∀ (loc : Location) t0 tok U c0,
     CreateSession loc t0 (inr tok) U c0 = ((tok, None), c) →
     (sessions (db c') !! tok = None ↔
      t0 + 24 * 3600 + loc (t0 + 24 * 3600) < now)) ∧
  (∀ now' tok, now ≤ now' →
     (GetUserByToken now' tok c').1 = (GetUserByToken now' tok c).1).
Proof.
  intros c'. subst c'.
  assert (Hlook : ∀ tok,
    sessions (db (CleanExpiredSessions now c).2) !! tok =
    match sessions (db c) !! tok with
    | Some s => if decide (expires_at s < now) then None else Some s
    | None => None
    end).
  { intros tok. run_method.
    destruct (sessions (db c) !! tok) as [s|] eqn:Hs.
    - case_decide.
      + apply map_lookup_filter_None. right. intros x. rewrite Hs.
        intros [= <-]. simpl. tauto.
      + by apply map_lookup_filter_Some.
    - apply map_lookup_filter_None. by left. }
  split; [done|]. split; [done|]. split.
  - intros loc t0 tok U c0 Hrun.
    apply SessionTheory.CreateSession_ok in Hrun as (_ & _ & _ & Hdb).
    change (24 * 3600) with sessionLifetime.
    rewrite Hlook, Hdb. cbn [sessions set_sessions]. rewrite lookup_insert_eq.
    cbn [expires_at]. unfold wallClock.
    case_decide; split; try done; lia.
  - intros now' tok Hnow.
    destruct (sessions (db c) !! tok) as [s|] eqn:Hs.
    + destruct (decide (expires_at s < now)) as [Hexp|Hexp].
      * rewrite (GetUserByToken_expired now' tok c s) by (done || lia).
        unfold GetUserByToken, mbind, M_bind, ret, mret, M_ret, QueryRow.
        cbn -[CleanExpiredSessions].
        specialize (Hlook tok). rewrite Hs, decide_True in Hlook by done.
        by rewrite Hlook.
      * apply GetUserByToken_congr; [|done].
        rewrite Hlook, Hs. by rewrite decide_False.
    + apply GetUserByToken_congr; [|done]. by rewrite Hlook, Hs.
Qed.

(** In a zone five hours east of UTC, as Asia/Almaty is, a cleaning that
    runs 60 seconds after the 24 hours of a session are over deletes
    nothing; one that runs a second after the five hours of the offset
    deletes the row. *)
Example CleanExpiredSessions_in_Almaty :
  let c := (CreateSession Sample.almaty 10 (inr "tokA") 2 Sample.conn0).2 in
  db (CleanExpiredSessions (10 + 24 * 3600 + 60) c).2 = db c ∧
  sessions (db (CleanExpiredSessions (10 + 24 * 3600 + 5 * 3600 + 1) c).2)
    !! "tokA" = None.
Proof. split; by vm_compute. Qed.

End SessionMore.

(** ** Auth gate: the optional mode *)

Module AuthMore.

Import SessionService AuthMiddleware.

(** X13: the Optional gate never answers itself: it always calls the
    downstream handler, with the user in the context exactly when the
    Required gate would have let the request through and with no user
    when the Required gate would have redirected; it only reads the
    store. *)
Theorem OptionalAuth_never_blocks now (r : Request) (c : Conn) :
  (OptionalAuth now r c).1 =
    match (RequireAuth now r c).1 with
    | HttpRedirect _ _ => NextServeHTTP None
    | served => served
    end ∧
  (∃ user, (OptionalAuth now r c).1 = NextServeHTTP user) ∧
  db (OptionalAuth now r c).2 = db c.
Proof.
  unfold OptionalAuth, RequireAuth.
  destruct (Request_Cookie r "session_token") as [e|cookie]; simpl.
  - repeat split; by eexists.
  - unfold mbind, M_bind, ret, mret, M_ret.
    pose proof (AuthTheory.GetUserByToken_reads now (Value cookie) c) as Hdb.
    destruct (GetUserByToken now (Value cookie) c) as [[u [e|]] c1]; simpl in *;
      repeat split; try done; by eexists.
Qed.

End AuthMore.

(** ** Text validator: what cleaning does *)

Module CleanTheory.

Import Validation.

Section WithTables.

Context `{U : UnicodeTables}.

(** The runes that [CleanText] can write: no control character, and in a
    dangerous range only as a combining mark. *)
Local Abbreviation writable r :=
  (isControlChar r = false ∧ (isCombiningChar r = true ∨ isDangerousUnicode r = false)).

Lemma CleanText_loop_writable (s : text) : ∀ count r,
  r ∈ CleanText_loop count s → writable r.
Proof.
  induction s as [|x s IH]; intros count r; simpl.
  - intros H. inversion H.
  - destruct (isControlChar x) eqn:Hc; [apply IH|].
    destruct (isCombiningChar x) eqn:Hm.
    + destruct (count + 1 <=? maxCombining); [|apply IH].
      intros [->|H]%elem_of_cons; [auto|by apply IH in H].
    + destruct (isDangerousUnicode x) eqn:Hd; [apply IH|].
      intros [->|H]%elem_of_cons; [auto|by apply IH in H].
Qed.

Lemma CleanText_loop_sublist (s : text) : ∀ count,
  sublist (CleanText_loop count s) s.
Proof.
  induction s as [|x s IH]; intros count; simpl; [constructor|].
  repeat case_match; (by apply sublist_skip) || (by apply sublist_cons).
Qed.

(** X14: [CleanText] only drops runes: its result is a subsequence of
    its input, holds no control character of [controlCharRanges], and
    holds a rune of [dangerousUnicodeRanges] only if it is a combining
    mark. *)
Theorem CleanText_output (s : text) :
  sublist (CleanText s) s ∧
  ∀ r, r ∈ CleanText s →
    isControlChar r = false ∧
    (isCombiningChar r = true ∨ isDangerousUnicode r = false).
Proof.
  unfold CleanText. destruct s as [|x s].
  - split; [constructor|]. intros r H. inversion H.
  - split; [apply CleanText_loop_sublist|].
    intros r. apply CleanText_loop_writable.
Qed.

(** *** Runs of combining marks *)

Lemma overLimit_run (limit : Z) (run post : text) : ∀ count,
  0 ≤ count → Forall (λ r, isCombiningChar r = true) run →
  limit < count + Z.of_nat (length run) → count ≤ limit →
  overLimit limit count (run ++ post) = true.
Proof.
  induction run as [|r run IH]; intros count H0 Hrun Hlen Hle; simpl in *.
  - lia.
  - apply Forall_cons in Hrun as [-> Hrun].
    destruct (count + 1 >? limit) eqn:Hgt; [done|].
    apply IH; try done; lia.
Qed.

Lemma overLimit_markRun (n : nat) (s : text) :
  markRun n s → overLimit (Z.of_nat n) 0 s = true.
Proof.
  intros (pre & run & post & -> & Hlen & Hrun).
  assert (Hgen : ∀ count, (0 ≤ count ≤ Z.of_nat n) →
            overLimit (Z.of_nat n) count (pre ++ run ++ post) = true);
    [|apply Hgen; lia].
  induction pre as [|r pre IH]; intros count Hc; simpl.
  - apply overLimit_run; try done; lia.
  - destruct (isCombiningChar r).
    + destruct (count + 1 >? Z.of_nat n) eqn:Hgt; [done|]. apply IH. lia.
    + apply IH. lia.
Qed.

Lemma markRun_cons (n : nat) (x : rune) (s : text) :
  markRun n s → markRun n (x :: s).
Proof.
  intros (pre & run & post & -> & Hlen & Hrun).
  by exists (x :: pre), run, post.
Qed.

Lemma markRun_overLimit (n : nat) (s : text) : ∀ count,
  0 ≤ count → overLimit (Z.of_nat n) count s = true →
  (∃ run post, s = run ++ post ∧ Forall (λ r, isCombiningChar r = true) run ∧
               Z.of_nat n < count + Z.of_nat (length run)) ∨
  markRun n s.
Proof.
  induction s as [|x s IH]; intros count H0; simpl; [done|].
  destruct (isCombiningChar x) eqn:Hm.
  - destruct (count + 1 >? Z.of_nat n) eqn:Hgt.
    + intros _. left. exists [x], s. repeat split; [by constructor|simpl; lia].
    + intros [(run & post & -> & Hrun & Hlen)|Hr]%IH; [|right; by apply markRun_cons|lia].
      left. exists (x :: run), post. repeat split; [by constructor|simpl; lia].
  - intros [(run & post & -> & Hrun & Hlen)|Hr]%IH; [| |lia];
      right; [|by apply markRun_cons].
    exists [x], run, post. repeat split; [lia|done].
Qed.

Lemma markRun_iff_overLimit (n : nat) (s : text) :
  markRun n s ↔ overLimit (Z.of_nat n) 0 s = true.
Proof.
  split; [apply overLimit_markRun|].
  intros [(run & post & -> & Hrun & Hlen)|Hr]%markRun_overLimit; [|done|lia].
  exists [], run, post. repeat split; [lia|done].
Qed.

Lemma overLimit_mono (limit limit' : Z) (s : text) : ∀ count count',
  limit ≤ limit' → count' ≤ count →
  overLimit limit count s = false → overLimit limit' count' s = false.
Proof.
  induction s as [|r s IH]; intros count count' Hl Hc; simpl; [done|].
  destruct (isCombiningChar r).
  - destruct (count + 1 >? limit) eqn:H1; [done|].
    destruct (count' + 1 >? limit') eqn:H2; [lia|].
    apply IH; lia.
  - apply IH; lia.
Qed.

Lemma excessiveCombining_overLimit (s : text) : ∀ count,
  excessiveCombining count s = overLimit 5 count s.
Proof.
  induction s as [|r s IH]; intros count; simpl; [done|].
  by rewrite !IH.
Qed.

(** On writable runes the loop of [CleanText] caps every run of marks:
    nothing resets the counter without being written. *)
Lemma CleanText_loop_capped (s : text) : ∀ count,
  Forall (λ r, writable r) s → 0 ≤ count →
  overLimit 2 (Z.min count 2) (CleanText_loop count s) = false.
Proof.
  induction s as [|x s IH]; intros count Hs H0; simpl; [done|].
  apply Forall_cons in Hs as [[Hc Hx] Hs]. rewrite Hc.
  destruct (isCombiningChar x) eqn:Hm.
  - unfold maxCombining. destruct (count + 1 <=? 2) eqn:Hle.
    + simpl. rewrite Hm.
      destruct (Z.min count 2 + 1 >? 2) eqn:Hgt; [lia|].
      replace (Z.min count 2 + 1) with (Z.min (count + 1) 2) by lia.
      apply IH; [done|lia].
    + replace (Z.min count 2) with (Z.min (count + 1) 2) by lia.
      apply IH; [done|lia].
  - destruct Hx as [Hx|Hx]; [done|]. rewrite Hx. simpl. rewrite Hm.
    apply (IH 0); [done|lia].
Qed.

Lemma CleanText_writable (s : text) : Forall (λ r, writable r) (CleanText s).
Proof.
  apply Forall_forall. intros r. unfold CleanText.
  destruct s as [|x s]; [by intros ?%elem_of_nil|].
  apply CleanText_loop_writable.
Qed.

Lemma CleanText_twice_capped (s : text) :
  overLimit 2 0 (CleanText (CleanText s)) = false.
Proof.
  pose proof (CleanText_writable s) as Hw.
  unfold CleanText at 1. destruct (CleanText s) as [|x l] eqn:E; [done|].
  apply (CleanText_loop_capped (x :: l) 0); [done|lia].
Qed.

(** X15: cleaning twice, which is what a validator does to the string a
    handler has already cleaned, leaves no run of more than 2 combining
    marks, whatever the input. *)
Theorem CleanText_twice_caps_runs (s : text) :
  ¬ markRun 2 (CleanText (CleanText s)).
Proof.
  intros Hrun. apply (overLimit_markRun 2) in Hrun.
  by rewrite CleanText_twice_capped in Hrun.
Qed.

(** On a string of writable runes without a run of more than 2 marks the
    loop changes nothing. *)
Lemma CleanText_loop_id (s : text) : ∀ count,
  Forall (λ r, writable r) s → 0 ≤ count →
  overLimit 2 count s = false → CleanText_loop count s = s.
Proof.
  induction s as [|x s IH]; intros count Hs H0; simpl; [done|].
  apply Forall_cons in Hs as [[Hc Hx] Hs]. rewrite Hc.
  destruct (isCombiningChar x) eqn:Hm.
  - unfold maxCombining. destruct (count + 1 >? 2) eqn:Hgt; [done|].
    intros Hover. rewrite (proj2 (Z.leb_le _ _)) by lia.
    f_equal. apply IH; [done|lia|done].
  - destruct Hx as [Hx|Hx]; [done|]. rewrite Hx.
    intros Hover. f_equal. apply IH; [done|lia|done].
Qed.

(** X16: read in code points, as [range] reads a string, the result of
    [CleanText] is its input when the input holds no control character,
    no rune of a dangerous range other than combining marks, and no run
    of more than 2 combining marks.  The second application reaches such
    a sequence of code points: a third one changes nothing more.  (Of the
    bytes this says nothing for a string that is not well-formed UTF-8:
    an ill-formed byte is read as U+FFFD and written as the three bytes of
    U+FFFD.) *)
Theorem CleanText_fixed (s : text) :
  ((∀ r, r ∈ s → isControlChar r = false ∧
                 (isCombiningChar r = true ∨ isDangerousUnicode r = false)) →
   ¬ markRun 2 s → CleanText s = s) ∧
  CleanText (CleanText (CleanText s)) = CleanText (CleanText s).
Proof.
  assert (Hfix : ∀ t : text, Forall (λ r, writable r) t →
            overLimit 2 0 t = false → CleanText t = t).
  { intros t Ht Hover. unfold CleanText. destruct t as [|x l]; [done|].
    apply CleanText_loop_id; [done|lia|done]. }
  split.
  - intros Hs Hrun. apply Hfix; [by apply Forall_forall|].
    destruct (overLimit 2 0 s) eqn:E; [|done].
    by apply (markRun_iff_overLimit 2) in E.
  - apply Hfix; [apply CleanText_writable|apply CleanText_twice_capped].
Qed.

End WithTables.

(** A letter with two accents is left as it is. *)
Lemma CleanText_fixed_witness :
  CleanText (U := Sample.tables) [0x61; Sample.ACUTE; Sample.ACUTE]
    = [0x61; Sample.ACUTE; Sample.ACUTE].
Proof.
  refine (proj1 (CleanText_fixed (U := Sample.tables)
                   [0x61; Sample.ACUTE; Sample.ACUTE]) _ _).
  - intros r Hr.
    repeat (apply elem_of_cons in Hr as [-> | Hr]); [vm_compute; auto..|].
    by apply elem_of_nil in Hr.
  - intros Hrun. apply (markRun_iff_overLimit (U := Sample.tables) 2) in Hrun.
    by vm_compute in Hrun.
Defined.

(** One application is not enough: when a zero width space stands
    between two pairs of accents, the first application joins the pairs
    and the second one drops two more marks. *)
Example CleanText_not_idempotent :
  let input := [0x61; Sample.ACUTE; Sample.ACUTE; Sample.ZWSP;
                Sample.ACUTE; Sample.ACUTE] in
  CleanText (U := Sample.tables) (CleanText (U := Sample.tables) input)
    = [0x61; Sample.ACUTE; Sample.ACUTE] ∧
  CleanText (U := Sample.tables) input
    ≠ CleanText (U := Sample.tables) (CleanText (U := Sample.tables) input).
Proof. split; by vm_compute. Qed.

End CleanTheory.

(** ** Text validator: what an accepted text looks like *)

Module ValidatorsTheory.

Import Validation.

(** *** Replacement *)

Lemma ReplaceAll_from_elem (old new : text) (r : rune) (s : text) : ∀ skip,
  r ∈ ReplaceAll_from skip s old new → r ∈ s ∨ r ∈ new.
Proof.
  induction s as [|c s IH]; intros skip; simpl.
  - intros H. inversion H.
  - destruct skip as [|k].
    + destruct (HasPrefix (c :: s) old).
      * intros [H|H]%elem_of_app; [by right|].
        apply IH in H as [H|H]; [left; by right|by right].
      * intros [->|H]%elem_of_cons; [left; by left|].
        apply IH in H as [H|H]; [left; by right|by right].
    + intros H. apply IH in H as [H|H]; [left; by right|by right].
Qed.

Lemma ReplaceAll_elem (s old new : text) (r : rune) :
  r ∈ ReplaceAll s old new → r ∈ s ∨ r ∈ new.
Proof. apply ReplaceAll_from_elem. Qed.

(** Replacing a rune by runes other than itself removes it. *)
Lemma ReplaceAll_removes (x : rune) (new s : text) :
  x ∉ new → x ∉ ReplaceAll s [x] new.
Proof.
  intros Hnew. unfold ReplaceAll. induction s as [|c s IH]; simpl.
  - intros H. inversion H.
  - rewrite andb_true_r. destruct (c =? x) eqn:Hc.
    + intros [H|H]%elem_of_app; [done|]. by apply IH.
    + intros [->|H]%elem_of_cons; [lia|]. by apply IH.
Qed.

Lemma ReplaceAll_keeps_out (x : rune) (s old new : text) :
  x ∉ s → x ∉ new → x ∉ ReplaceAll s old new.
Proof. intros Hs Hnew [H|H]%ReplaceAll_elem; done. Qed.

Section WithTables.

Context `{U : UnicodeTables}.

Lemma collapseSpaces_loop_elem (r : rune) (fuel : nat) : ∀ s,
  r ∈ collapseSpaces_loop fuel s → r ∈ s ∨ r = SP.
Proof.
  induction fuel as [|fuel IH]; intros s; simpl; [by left|].
  destruct (Contains s [SP; SP]); [|by left].
  intros [[H|H]%ReplaceAll_elem|H]%IH; [by left| |by right].
  right. by apply list_elem_of_singleton in H.
Qed.

Lemma normalizeTitle_elem (r : rune) (title : text) :
  r ∈ normalizeTitle title → r ∈ CleanText title ∨ r = SP.
Proof.
  unfold normalizeTitle, collapseSpaces.
  intros [H|H]%collapseSpaces_loop_elem; [|by right].
  repeat (apply ReplaceAll_elem in H as [H|H];
          [|right; by apply list_elem_of_singleton in H]).
  by left.
Qed.

Lemma normalizeContent_elem (r : rune) (content : text) :
  r ∈ normalizeContent content → r ∈ CleanText content ∨ r = SP ∨ r = LF.
Proof.
  unfold normalizeContent. intros H.
  apply ReplaceAll_elem in H as [H|H].
  - apply ReplaceAll_elem in H as [H|H].
    + apply ReplaceAll_elem in H as [H|H]; [by left|].
      right. right. by apply list_elem_of_singleton in H.
    + right. right. by apply list_elem_of_singleton in H.
  - right. left.
    repeat (apply elem_of_cons in H as [H|H]; [done|]). inversion H.
Qed.

(** The single-line form of a title holds no line feed, carriage return
    or tab, and no two adjacent spaces. *)
Lemma normalizeTitle_single_line (title : text) :
  (LF ∉ normalizeTitle title) ∧ (CR ∉ normalizeTitle title) ∧
  (TAB ∉ normalizeTitle title) ∧
  Contains (normalizeTitle title) [SP; SP] = false.
Proof.
  assert (Hrest : ∀ x s, x ≠ SP → x ∉ s → x ∉ collapseSpaces s).
  { intros x s Hx Hs [H|H]%collapseSpaces_loop_elem; done. }
  unfold normalizeTitle. repeat split.
  - apply Hrest; [done|].
    do 2 (apply ReplaceAll_keeps_out; [|by intros ?%list_elem_of_singleton]).
    apply ReplaceAll_removes. by intros ?%list_elem_of_singleton.
  - apply Hrest; [done|].
    apply ReplaceAll_keeps_out; [|by intros ?%list_elem_of_singleton].
    apply ReplaceAll_removes. by intros ?%list_elem_of_singleton.
  - apply Hrest; [done|].
    apply ReplaceAll_removes. by intros ?%list_elem_of_singleton.
  - apply ValidationTheory.collapseSpaces_done.
Qed.

(** Line endings are normalised and tabs expanded in a content. *)
Lemma normalizeContent_no_cr_tab (content : text) :
  (CR ∉ normalizeContent content) ∧ (TAB ∉ normalizeContent content).
Proof.
  unfold normalizeContent. split.
  - apply ReplaceAll_keeps_out;
      [|intros H; repeat (apply elem_of_cons in H as [H|H]; [done|]); inversion H].
    apply ReplaceAll_removes. by intros ?%list_elem_of_singleton.
  - apply ReplaceAll_removes.
    intros H; repeat (apply elem_of_cons in H as [H|H]; [done|]); inversion H.
Qed.

(** *** Trimming *)

Lemma TrimLeftSpace_length (s : text) :
  (length (TrimLeftSpace s) ≤ length s)%nat.
Proof.
  induction s as [|c s IH]; simpl; [lia|].
  destruct (IsSpace c); simpl; lia.
Qed.

Lemma TrimLeftSpace_fixed (s : text) :
  length (TrimLeftSpace s) = length s →
  match s with [] => True | c :: _ => IsSpace c = false end.
Proof.
  destruct s as [|c s]; simpl; [done|].
  destruct (IsSpace c); [|done].
  pose proof (TrimLeftSpace_length s). lia.
Qed.

Lemma TrimLeftSpace_eq (s : text) :
  length (TrimLeftSpace s) = length s → TrimLeftSpace s = s.
Proof.
  destruct s as [|c s]; simpl; [done|].
  destruct (IsSpace c); [|done].
  pose proof (TrimLeftSpace_length s). lia.
Qed.

(** A string that [TrimSpace] leaves alone does not begin or end with
    white space. *)
Lemma TrimSpace_fixed (s : text) :
  s = TrimSpace s →
  match s with [] => True | c :: _ => IsSpace c = false end ∧
  match reverse s with [] => True | c :: _ => IsSpace c = false end.
Proof.
  intros Hs. unfold TrimSpace in Hs.
  apply (f_equal length) in Hs as Hlen.
  rewrite length_reverse in Hlen.
  pose proof (TrimLeftSpace_length s) as H1.
  pose proof (TrimLeftSpace_length (reverse (TrimLeftSpace s))) as H2.
  rewrite length_reverse in H2.
  split; [apply TrimLeftSpace_fixed; lia|].
  assert (Hl : TrimLeftSpace s = s) by (apply TrimLeftSpace_eq; lia).
  rewrite Hl in Hs, H2, Hlen.
  apply TrimLeftSpace_fixed. rewrite length_reverse. lia.
Qed.

Lemma text_ends (s : text) :
  (0 < length s)%nat →
  match s with [] => True | c :: _ => IsSpace c = false end →
  match reverse s with [] => True | c :: _ => IsSpace c = false end →
  (∃ c, head s = Some c ∧ IsSpace c = false) ∧
  (∃ c, last s = Some c ∧ IsSpace c = false).
Proof.
  intros Hlen Hh Hl. split.
  - destruct s as [|c s]; [simpl in Hlen; lia|]. by exists c.
  - rewrite <- head_reverse.
    destruct (reverse s) as [|c l] eqn:E; [|by exists c].
    apply (f_equal length) in E. rewrite length_reverse in E. simpl in E. lia.
Qed.

Lemma safe_no_excessiveRun (s : text) :
  (ValidateTextSafety s).1 = true → ¬ excessiveRun s.
Proof.
  intros Hsafe Hrun.
  by rewrite (ValidationTheory.ValidateTextSafety_excessiveRun s Hrun) in Hsafe.
Qed.

(** X17: an accepted title, in the single-line form the validator
    measures (line breaks and tabs turned into spaces, runs of spaces
    collapsed), has 3 to 255 code points, begins and ends with a rune that
    is not white space, holds no line feed, carriage return or tab and no
    two adjacent spaces, and has no run of more than 5 combining marks. *)
Theorem ValidatePostTitle_accepted (title : text) :
  (ValidatePostTitle title).1 = true →
  let n := normalizeTitle title in
  (3 ≤ RuneCountInString n ≤ 255) ∧
  (∃ c, head n = Some c ∧ IsSpace c = false) ∧
  (∃ c, last n = Some c ∧ IsSpace c = false) ∧
  (LF ∉ n) ∧ (CR ∉ n) ∧ (TAB ∉ n) ∧ Contains n [SP; SP] = false ∧
  ¬ excessiveRun n.
Proof.
  intros Hacc n. subst n. unfold ValidatePostTitle in Hacc.
  destruct (bool_decide (normalizeTitle title = TrimSpace (normalizeTitle title)))
    eqn:Htrim; simpl in Hacc; [|done].
  apply bool_decide_eq_true in Htrim.
  destruct (ValidateTextSafety (normalizeTitle title)) as [valid errMsg] eqn:Hsafe.
  destruct valid; simpl in Hacc; [|done].
  destruct (RuneCountInString (normalizeTitle title) =? 0) eqn:H0; [done|].
  destruct (RuneCountInString (normalizeTitle title) <? 3) eqn:H3; [done|].
  destruct (RuneCountInString (normalizeTitle title) >? 255) eqn:H255; [done|].
  destruct (TrimSpace_fixed _ Htrim) as [Hh Hl].
  destruct (text_ends (normalizeTitle title)) as [Hfirst Hlast]; try done.
  { unfold RuneCountInString in *. lia. }
  destruct (normalizeTitle_single_line title) as (? & ? & ? & ?).
  repeat split; try done; try lia.
  apply safe_no_excessiveRun. by rewrite Hsafe.
Qed.

Lemma content_accepted (content : text) (bound : Z) msg1 msg2 msg3 msg4 :
  (let cleaned := normalizeContent content in
   if negb (bool_decide (cleaned = TrimSpace cleaned)) then (false, msg1)
   else
     let '(valid, errMsg) := ValidateTextSafety cleaned in
     if negb valid then (false, errMsg)
     else
       let length := RuneCountInString cleaned in
       if length =? 0 then (false, msg2)
       else if length <? 10 then (false, msg3)
       else if length >? bound then (false, msg4)
       else (true, EmptyString)).1 = true →
  let n := normalizeContent content in
  (10 ≤ RuneCountInString n ≤ bound) ∧
  (∃ c, head n = Some c ∧ IsSpace c = false) ∧
  (∃ c, last n = Some c ∧ IsSpace c = false) ∧
  (CR ∉ n) ∧ (TAB ∉ n) ∧ ¬ excessiveRun n.
Proof.
  intros Hacc n. subst n. cbv zeta in Hacc.
  destruct (bool_decide (normalizeContent content
                         = TrimSpace (normalizeContent content)))
    eqn:Htrim; simpl in Hacc; [|done].
  apply bool_decide_eq_true in Htrim.
  destruct (ValidateTextSafety (normalizeContent content)) as [valid errMsg] eqn:Hsafe.
  destruct valid; simpl in Hacc; [|done].
  destruct (RuneCountInString (normalizeContent content) =? 0) eqn:H0; [done|].
  destruct (RuneCountInString (normalizeContent content) <? 10) eqn:H3; [done|].
  destruct (RuneCountInString (normalizeContent content) >? bound) eqn:Hb; [done|].
  destruct (TrimSpace_fixed _ Htrim) as [Hh Hl].
  destruct (text_ends (normalizeContent content)) as [Hfirst Hlast]; try done.
  { unfold RuneCountInString in *. lia. }
  destruct (normalizeContent_no_cr_tab content) as (? & ?).
  repeat split; try done; try lia.
  apply safe_no_excessiveRun. by rewrite Hsafe.
Qed.

(** X18: an accepted post content, and an accepted comment, in the form
    the validator measures (line endings turned into line feeds, tabs
    into four spaces), has 10 to 10,000 code points (5,000 for a comment),
    begins and ends with a rune that is not white space, holds no
    carriage return and no tab, and has no run of more than 5 combining
    marks. *)
Theorem content_validators_accepted (content : text) :
  let n := normalizeContent content in
  let shape bound :=
    (10 ≤ RuneCountInString n ≤ bound) ∧
    (∃ c, head n = Some c ∧ IsSpace c = false) ∧
    (∃ c, last n = Some c ∧ IsSpace c = false) ∧
    (CR ∉ n) ∧ (TAB ∉ n) ∧ ¬ excessiveRun n in
  ((ValidatePostContent content).1 = true → shape 10000) ∧
  ((ValidateCommentContent content).1 = true → shape 5000).
Proof.
  intros n shape. subst n shape. split; intros Hacc.
  - by apply (content_accepted content 10000) in Hacc.
  - by apply (content_accepted content 5000) in Hacc.
Qed.

(** *** Reasons that are never given *)

(** The three ways out of [ValidateTextSafety] besides acceptance. *)
Lemma ValidateTextSafety_cases (x : text) :
  ValidateTextSafety x = (true, EmptyString) ∨
  (ValidateTextSafety x = (false, msgExcessive) ∧ excessiveCombining 0 x = true) ∨
  ValidateTextSafety x = (false, msgSuspicious) ∨
  (ValidateTextSafety x = (false, msgInvisible) ∧
   (0x200B ∈ x ∨ 0x200C ∈ x ∨ 0x200D ∈ x)).
Proof.
  unfold ValidateTextSafety. destruct x as [|r x]; [by left|].
  destruct (excessiveCombining 0 (r :: x)); [right; by left|].
  destruct (_ || _); [right; right; by left|].
  destruct (Contains (r :: x) [0x200B]) eqn:H1.
  { right. right. right. split; [done|]. left. by apply ValidationTheory.Contains_singleton. }
  destruct (Contains (r :: x) [0x200C]) eqn:H2.
  { right. right. right. split; [done|]. right. left.
    by apply ValidationTheory.Contains_singleton. }
  destruct (Contains (r :: x) [0x200D]) eqn:H3.
  { right. right. right. split; [done|]. right. right.
    by apply ValidationTheory.Contains_singleton. }
  by left.
Qed.

(** The reason a validator gives is that of the screen or one of its own,
    none of which is a reason of the screen. *)
Ltac validator_reason Hcases :=
  repeat case_match; simpl; try done;
  destruct Hcases as [Hc|[[Hc ?]|[Hc|[Hc ?]]]];
  injection Hc as -> ->; first [done | tauto | congruence].

Section ZeroWidth.

Hypothesis zwsp : isCombiningChar 0x200B = false.
Hypothesis zwnj : isCombiningChar 0x200C = false.
Hypothesis zwj : isCombiningChar 0x200D = false.

Lemma CleanText_no_zero_width (s : text) :
  ¬ (0x200B ∈ CleanText s ∨ 0x200C ∈ CleanText s ∨ 0x200D ∈ CleanText s).
Proof.
  pose proof (CleanTheory.CleanText_writable s) as Hw.
  rewrite Forall_forall in Hw.
  intros [H|[H|H]]; apply Hw in H as [_ [H|H]]; congruence || done.
Qed.

(** X19: the reason "Text contains invisible characters" is never given
    by a validator.  The zero width characters it stands for lie in a
    dangerous range and are no combining marks, so [CleanText] has
    dropped them before the screen sees the string. *)
Theorem invisible_reason_never_given (s : text) :
  (ValidateUsername s).2 ≠ "Text contains invisible characters" ∧
  (ValidatePostTitle s).2 ≠ "Text contains invisible characters" ∧
  (ValidatePostContent s).2 ≠ "Text contains invisible characters" ∧
  (ValidateCommentContent s).2 ≠ "Text contains invisible characters".
Proof.
  pose proof (CleanText_no_zero_width s) as Hzw.
  assert (Ht : ¬ (0x200B ∈ normalizeTitle s ∨ 0x200C ∈ normalizeTitle s
                  ∨ 0x200D ∈ normalizeTitle s)).
  { intros [H|[H|H]]; apply normalizeTitle_elem in H as [H|H]; try done;
      apply Hzw; auto. }
  assert (Hn : ¬ (0x200B ∈ normalizeContent s ∨ 0x200C ∈ normalizeContent s
                  ∨ 0x200D ∈ normalizeContent s)).
  { intros [H|[H|H]]; apply normalizeContent_elem in H as [H|[H|H]]; try done;
      apply Hzw; auto. }
  repeat split.
  - unfold ValidateUsername.
    pose proof (ValidateTextSafety_cases (CleanText s)) as Hcases.
    validator_reason Hcases.
  - unfold ValidatePostTitle.
    pose proof (ValidateTextSafety_cases (normalizeTitle s)) as Hcases.
    validator_reason Hcases.
  - unfold ValidatePostContent.
    pose proof (ValidateTextSafety_cases (normalizeContent s)) as Hcases.
    validator_reason Hcases.
  - unfold ValidateCommentContent.
    pose proof (ValidateTextSafety_cases (normalizeContent s)) as Hcases.
    validator_reason Hcases.
Qed.

End ZeroWidth.

(** *** Runs of marks through the normalisations *)

Local Abbreviation plain l := (Forall (λ r, isCombiningChar r = false) l).

Lemma overLimit_plain_app (limit : Z) (l rest : text) : ∀ count,
  plain l → l ≠ [] →
  overLimit limit count (l ++ rest) = overLimit limit 0 rest.
Proof.
  induction l as [|x l IH]; intros count Hl Hne; [done|].
  apply Forall_cons in Hl as [Hx Hl]. simpl. rewrite Hx.
  destruct l as [|y l]; [done|]. by apply IH.
Qed.

Lemma HasPrefix_take (prefix : text) : ∀ s,
  HasPrefix s prefix = true → take (length prefix) s = prefix.
Proof.
  induction prefix as [|p prefix IH]; intros [|c s]; simpl; try done.
  intros [Hc Hp]%andb_true_iff. apply Z.eqb_eq in Hc as ->.
  f_equal. by apply IH.
Qed.

Lemma overLimit_ReplaceAll_from (limit : Z) (old new : text) :
  plain old → old ≠ [] → plain new → new ≠ [] →
  ∀ s skip count,
    plain (take skip s) → ((0 < skip)%nat → count = 0) →
    overLimit limit count s = false →
    overLimit limit count (ReplaceAll_from skip s old new) = false.
Proof.
  intros Hold Hoe Hnew Hne.
  induction s as [|x s IH]; intros skip count Hskip Hc; [done|].
  destruct skip as [|k]; simpl.
  - destruct (HasPrefix (x :: s) old) eqn:Hp.
    + rewrite overLimit_plain_app by done.
      destruct old as [|o old']; [done|].
      simpl in Hp. apply andb_true_iff in Hp as [Hx Hp].
      apply Z.eqb_eq in Hx as ->.
      apply Forall_cons in Hold as [Ho Hold]. rewrite Ho.
      simpl. rewrite Nat.sub_0_r. apply IH; [|done].
      by rewrite (HasPrefix_take old' s Hp).
    + simpl. destruct (isCombiningChar x).
      * destruct (count + 1 >? limit); [done|].
        intros H; apply (IH 0%nat); [by apply Forall_nil|lia|done].
      * intros H; apply (IH 0%nat); [by apply Forall_nil|lia|done].
  - simpl in Hskip. apply Forall_cons in Hskip as [Hx Hskip].
    rewrite Hx. intros H. rewrite (Hc ltac:(lia)).
    apply IH; [done|done|done].
Qed.

Lemma overLimit_ReplaceAll (limit : Z) (s old new : text) :
  plain old → old ≠ [] → plain new → new ≠ [] →
  overLimit limit 0 s = false → overLimit limit 0 (ReplaceAll s old new) = false.
Proof.
  intros Hold Hoe Hnew Hne. by apply overLimit_ReplaceAll_from.
Qed.

Lemma plain_ascii (l : text) : Forall (λ r, r < 0x0300) l → plain l.
Proof.
  intros H. eapply Forall_impl; [exact H|].
  intros r. apply ValidationTheory.not_combining_below_0300.
Qed.

Ltac plain_ascii := apply plain_ascii; repeat constructor.

Lemma overLimit_collapseSpaces_loop (limit : Z) (fuel : nat) : ∀ s,
  overLimit limit 0 s = false →
  overLimit limit 0 (collapseSpaces_loop fuel s) = false.
Proof.
  induction fuel as [|fuel IH]; intros s Hs; simpl; [done|].
  destruct (Contains s [SP; SP]); [|done].
  apply IH. apply overLimit_ReplaceAll; try done; plain_ascii.
Qed.

(** X20: a validator called on a string that has been cleaned before, as
    every handler does ([Register], [CreatePost], [CreateComment]), never
    gives the excessive-special-characters reason: the second cleaning
    leaves no run of more than 2 combining marks for the screen, which
    looks for more than 5. *)
Theorem excessive_reason_never_given_after_cleaning (raw : text) :
  (ValidateUsername (CleanText raw)).2 ≠ msgExcessive ∧
  (ValidatePostTitle (CleanText raw)).2 ≠ msgExcessive ∧
  (ValidatePostContent (CleanText raw)).2 ≠ msgExcessive ∧
  (ValidateCommentContent (CleanText raw)).2 ≠ msgExcessive.
Proof.
  assert (H2 : overLimit 5 0 (CleanText (CleanText raw)) = false).
  { apply (CleanTheory.overLimit_mono 2 5 _ 0 0); try lia.
    apply CleanTheory.CleanText_twice_capped. }
  assert (Ht : excessiveCombining 0 (normalizeTitle (CleanText raw)) = false).
  { rewrite CleanTheory.excessiveCombining_overLimit.
    unfold normalizeTitle, collapseSpaces.
    apply overLimit_collapseSpaces_loop.
    repeat (apply overLimit_ReplaceAll; try done; try plain_ascii). }
  assert (Hn : excessiveCombining 0 (normalizeContent (CleanText raw)) = false).
  { rewrite CleanTheory.excessiveCombining_overLimit.
    unfold normalizeContent.
    repeat (apply overLimit_ReplaceAll; try done; try plain_ascii). }
  assert (Hu : excessiveCombining 0 (CleanText (CleanText raw)) = false)
    by (by rewrite CleanTheory.excessiveCombining_overLimit).
  repeat split.
  - unfold ValidateUsername.
    pose proof (ValidateTextSafety_cases (CleanText (CleanText raw))) as Hcases.
    validator_reason Hcases.
  - unfold ValidatePostTitle.
    pose proof (ValidateTextSafety_cases (normalizeTitle (CleanText raw))) as Hcases.
    validator_reason Hcases.
  - unfold ValidatePostContent.
    pose proof (ValidateTextSafety_cases (normalizeContent (CleanText raw))) as Hcases.
    validator_reason Hcases.
  - unfold ValidateCommentContent.
    pose proof (ValidateTextSafety_cases (normalizeContent (CleanText raw))) as Hcases.
    validator_reason Hcases.
Qed.

End WithTables.

Lemma ValidatePostTitle_accepted_witness :
  let n := normalizeTitle (U := Sample.tables) [0x48; 0x69; TAB; TAB; 0x79; 0x6F; 0x75] in
  (3 ≤ RuneCountInString n ≤ 255) ∧ (TAB ∉ n) ∧ Contains n [SP; SP] = false.
Proof.
  intros n.
  destruct (ValidatePostTitle_accepted (U := Sample.tables)
              [0x48; 0x69; TAB; TAB; 0x79; 0x6F; 0x75])
    as (Hlen & _ & _ & _ & _ & Htab & Hsp & _); [by vm_compute|].
  by repeat split.
Defined.

Lemma content_validators_accepted_witness :
  let n := normalizeContent (U := Sample.tables)
             [0x48; 0x65; 0x6C; 0x6C; 0x6F; CR; LF; 0x77; 0x6F; 0x72; 0x6C; 0x64] in
  (10 ≤ RuneCountInString n ≤ 5000) ∧ (CR ∉ n).
Proof.
  intros n.
  destruct (proj2 (content_validators_accepted (U := Sample.tables)
              [0x48; 0x65; 0x6C; 0x6C; 0x6F; CR; LF; 0x77; 0x6F; 0x72; 0x6C; 0x64]))
    as (Hlen & _ & _ & Hcr & _); [by vm_compute|].
  by split.
Defined.

(** A title of zero width spaces is refused for being empty. *)
Lemma invisible_reason_never_given_witness :
  ValidatePostTitle (U := Sample.tables) [Sample.ZWSP; Sample.ZWSP]
    = (false, msgTitleRequired) ∧
  (ValidatePostTitle (U := Sample.tables) [Sample.ZWSP; Sample.ZWSP]).2
    ≠ "Text contains invisible characters".
Proof.
  split; [reflexivity|].
  refine (proj1 (proj2 (invisible_reason_never_given (U := Sample.tables)
                          _ _ _ [Sample.ZWSP; Sample.ZWSP]))); reflexivity.
Defined.

End ValidatorsTheory.

(** ** Text validator: the patterns *)

Module RegexTheory.

Import Validation.

Lemma matches_nil_nullable (re : regex) (s : text) :
  matches re s → s = [] → nullable re = true.
Proof.
  induction 1 as [| | a b s1 s2 _ IH1 _ IH2 | | | |]; intros Hs; simpl; try done.
  - apply app_eq_nil in Hs as [-> ->]. by rewrite IH1, IH2.
  - by rewrite IHmatches.
  - rewrite IHmatches by done. apply orb_true_r.
Qed.

Lemma nullable_matches_nil (re : regex) :
  nullable re = true → matches re [].
Proof.
  induction re as [| | |a IHa b IHb|a IHa b IHb|a IHa]; simpl; try done.
  - intros _. constructor.
  - intros [Ha Hb]%andb_true_iff. apply (m_cat a b [] []); auto.
  - intros [Ha|Hb]%orb_true_iff; [apply m_alt_l|apply m_alt_r]; auto.
  - intros _. constructor.
Qed.

Lemma deriv_matches (c : rune) (re : regex) : ∀ s,
  matches (deriv c re) s → matches re (c :: s).
Proof.
  induction re as [| |ranges|a IHa b IHb|a IHa b IHb|a IHa]; intros s; simpl.
  - inversion 1.
  - inversion 1.
  - destruct (inClass ranges c) eqn:Hc; inversion 1; subst. by constructor.
  - destruct (nullable a) eqn:Hn.
    + inversion 1 as [| | | ? ? ? Hl | ? ? ? Hr | |]; subst.
      * inversion Hl as [| |? ? s1 s2 H1 H2| | | |]; subst.
        apply (m_cat a b (c :: s1) s2); auto.
      * apply (m_cat a b [] (c :: s)); [by apply nullable_matches_nil|auto].
    + inversion 1 as [| |? ? s1 s2 H1 H2| | | |]; subst.
      apply (m_cat a b (c :: s1) s2); auto.
  - inversion 1; subst; [apply m_alt_l|apply m_alt_r]; auto.
  - inversion 1 as [| |? ? s1 s2 H1 H2| | | |]; subst.
    apply (m_star_cons a (c :: s1) s2); auto.
Qed.

Lemma matches_deriv (c : rune) (re : regex) (t : text) :
  matches re t → ∀ s, t = c :: s → matches (deriv c re) s.
Proof.
  induction 1 as [|ranges r Hr|a b s1 s2 H1 IH1 H2 IH2|a b s0 H0 IH0
                  |a b s0 H0 IH0| |a s1 s2 H1 IH1 H2 IH2]; intros s Hs; simpl.
  - done.
  - injection Hs as -> <-. rewrite Hr. constructor.
  - destruct s1 as [|x s1]; simpl in Hs.
    + subst s2. rewrite (matches_nil_nullable a [] H1 eq_refl).
      apply m_alt_r. by apply IH2.
    + injection Hs as -> <-.
      destruct (nullable a); [apply m_alt_l|]; apply m_cat; auto.
  - apply m_alt_l. by apply IH0.
  - apply m_alt_r. by apply IH0.
  - done.
  - destruct s1 as [|x s1]; simpl in Hs.
    + by apply IH2.
    + injection Hs as -> <-. apply m_cat; auto.
Qed.

(** The matcher decides the language of the expression. *)
Lemma MatchString_matches (s : text) : ∀ re,
  MatchString re s = true ↔ matches re s.
Proof.
  unfold MatchString. induction s as [|c s IH]; intros re; simpl.
  - split; [apply nullable_matches_nil|]. intros H.
    by apply (matches_nil_nullable re []).
  - rewrite IH. split; [apply deriv_matches|].
    intros H. by apply (matches_deriv c re (c :: s)).
Qed.

(** *** The languages of the forms the patterns are made of *)

Lemma matches_cat (a b : regex) (s : text) :
  matches (ReCat a b) s ↔ ∃ s1 s2, s = s1 ++ s2 ∧ matches a s1 ∧ matches b s2.
Proof.
  split.
  - inversion 1; subst. eauto.
  - intros (s1 & s2 & -> & H1 & H2). by constructor.
Qed.

Lemma matches_class (ranges : list (rune * rune)) (s : text) :
  matches (ReClass ranges) s ↔ ∃ r, s = [r] ∧ inClass ranges r = true.
Proof.
  split.
  - inversion 1; subst. eauto.
  - intros (r & -> & Hr). by constructor.
Qed.

Lemma matches_star_class (ranges : list (rune * rune)) (s : text) :
  matches (ReStar (ReClass ranges)) s ↔ Forall (λ r, inClass ranges r = true) s.
Proof.
  split.
  - intros H. remember (ReStar (ReClass ranges)) as re eqn:Hre.
    induction H as [| | | | | |a s1 s2 H1 _ H2 IH2]; try done.
    injection Hre as ->. inversion H1; subst. constructor; auto.
  - induction 1 as [|r l Hr _ IH]; [constructor|].
    apply (m_star_cons _ [r] l); [by constructor|done].
Qed.

Lemma matches_plus_class (ranges : list (rune * rune)) (s : text) :
  matches (RePlus (ReClass ranges)) s ↔
  s ≠ [] ∧ Forall (λ r, inClass ranges r = true) s.
Proof.
  unfold RePlus. rewrite matches_cat. split.
  - intros (s1 & s2 & -> & (r & -> & Hr)%matches_class & H2%matches_star_class).
    split; [done|]. by constructor.
  - intros [Hne Hall]. destruct s as [|r s]; [done|].
    apply Forall_cons in Hall as [Hr Hall].
    exists [r], s. repeat split; [by apply matches_class; eauto|].
    by apply matches_star_class.
Qed.

Lemma matches_atleast_class (n : nat) (ranges : list (rune * rune)) : ∀ s,
  matches (ReAtLeast n (ReClass ranges)) s ↔
  (n ≤ length s)%nat ∧ Forall (λ r, inClass ranges r = true) s.
Proof.
  induction n as [|n IH]; intros s; simpl.
  - rewrite matches_star_class. split; [intros H; split; [lia|done]|by intros [_ ?]].
  - rewrite matches_cat. split.
    + intros (s1 & s2 & -> & (r & -> & Hr)%matches_class & [Hlen Hall]%IH).
      split; [simpl; lia|by constructor].
    + intros [Hlen Hall]. destruct s as [|r s]; [simpl in Hlen; lia|].
      apply Forall_cons in Hall as [Hr Hall].
      exists [r], s. repeat split; [by apply matches_class; eauto|].
      apply IH. split; [simpl in Hlen; lia|done].
Qed.

(** The shape of an address: [local@domain.tld]. *)
Lemma matches_emailRegex (s : text) :
  matches emailRegex s ↔
  ∃ loc dom tld,
    s = loc ++ [0x40] ++ dom ++ [0x2E] ++ tld ∧
    loc ≠ [] ∧ Forall (λ r, inClass emailLocal r = true) loc ∧
    dom ≠ [] ∧ Forall (λ r, inClass emailDomain r = true) dom ∧
    (2 ≤ length tld)%nat ∧ Forall (λ r, inClass letters r = true) tld.
Proof.
  unfold emailRegex, ReLit. split.
  - intros (loc & s1 & -> & [Hl1 Hl2]%matches_plus_class & H1)%matches_cat.
    apply matches_cat in H1 as (a & s2 & -> & (r & -> & Hr)%matches_class & H2).
    apply matches_cat in H2 as (dom & s3 & -> & [Hd1 Hd2]%matches_plus_class & H3).
    apply matches_cat in H3 as (d & tld & -> & (r' & -> & Hr')%matches_class & H4).
    apply (matches_atleast_class 2) in H4 as [Ht1 Ht2].
    assert (r = 0x40) as -> by (unfold inClass in Hr; simpl in Hr; lia).
    assert (r' = 0x2E) as -> by (unfold inClass in Hr'; simpl in Hr'; lia).
    by exists loc, dom, tld.
  - intros (loc & dom & tld & -> & Hl1 & Hl2 & Hd1 & Hd2 & Ht1 & Ht2).
    apply matches_cat. exists loc, ([0x40] ++ dom ++ [0x2E] ++ tld).
    repeat split; [by apply matches_plus_class|].
    apply matches_cat. exists [0x40], (dom ++ [0x2E] ++ tld).
    repeat split; [by apply matches_class; eauto|].
    apply matches_cat. exists dom, ([0x2E] ++ tld).
    repeat split; [by apply matches_plus_class|].
    apply matches_cat. exists [0x2E], tld.
    repeat split; [by apply matches_class; eauto|].
    by apply (matches_atleast_class 2).
Qed.

(** X21: [ValidateEmail] accepts exactly the strings of at most 100 code
    points of the shape [local@domain.tld]: a non-empty local part of
    ASCII letters, digits and [._%+-], an at sign, a non-empty domain of
    ASCII letters, digits, dots and hyphens, a dot, and a last label of
    two or more ASCII letters. *)
Theorem ValidateEmail_accepts_iff (email : text) :
  (ValidateEmail email).1 = true ↔
  RuneCountInString email ≤ 100 ∧
  ∃ loc dom tld,
    email = loc ++ [0x40] ++ dom ++ [0x2E] ++ tld ∧
    loc ≠ [] ∧ Forall (λ r, inClass emailLocal r = true) loc ∧
    dom ≠ [] ∧ Forall (λ r, inClass emailDomain r = true) dom ∧
    (2 ≤ length tld)%nat ∧ Forall (λ r, inClass letters r = true) tld.
Proof.
  rewrite <- matches_emailRegex, <- MatchString_matches.
  unfold ValidateEmail.
  destruct (Contains email [SP]) eqn:Hsp; simpl.
  - split; [done|]. intros [_ Hm]. exfalso.
    apply MatchString_matches, matches_emailRegex in Hm
      as (loc & dom & tld & -> & _ & Hl & _ & Hd & _ & Ht).
    apply ValidationTheory.Contains_singleton in Hsp.
    assert (Hno : ∀ cls l, cls = emailLocal ∨ cls = emailDomain ∨ cls = letters →
              Forall (λ r, inClass cls r = true) l → SP ∉ l).
    { intros cls l Hcls Hall Hin.
      rewrite Forall_forall in Hall. apply Hall in Hin.
      destruct Hcls as [-> | [-> | ->]]; by vm_compute in Hin. }
    repeat (apply elem_of_app in Hsp as [Hsp|Hsp]); revert Hsp.
    + apply (Hno emailLocal loc); auto.
    + by intros ?%list_elem_of_singleton.
    + apply (Hno emailDomain dom); auto.
    + by intros ?%list_elem_of_singleton.
    + apply (Hno letters tld); auto.
  - destruct (MatchString emailRegex email); simpl; [|split; [done|by intros [_ ?]]].
    destruct (RuneCountInString email >? 100) eqn:Hlen; simpl.
    + split; [done|]. lia.
    + split; [|done]. intros _. split; [lia|done].
Qed.

(** An at sign is in neither class, so the split at it is the only one. *)
Lemma class_no_at (cls : list (rune * rune)) (l : text) :
  cls = emailLocal ∨ cls = emailDomain ∨ cls = letters →
  Forall (λ r, inClass cls r = true) l → filter (λ r : rune, r = 0x40) l = [].
Proof.
  intros Hcls. induction 1 as [|r l Hr _ IH]; [done|].
  rewrite filter_cons_False; [done|].
  intros ->. destruct Hcls as [-> | [-> | ->]]; by vm_compute in Hr.
Qed.

(** X22: an accepted address holds exactly one at sign and no space. *)
Theorem ValidateEmail_one_at (email : text) :
  (ValidateEmail email).1 = true →
  length (filter (λ r : rune, r = 0x40) email) = 1%nat ∧ SP ∉ email.
Proof.
  unfold ValidateEmail.
  destruct (Contains email [SP]) eqn:Hsp; [done|].
  destruct (MatchString emailRegex email) eqn:Hm; [|done].
  intros _. split.
  - apply MatchString_matches, matches_emailRegex in Hm
      as (loc & dom & tld & -> & _ & Hl & _ & Hd & _ & Ht).
    change ([0x40] ++ dom ++ [0x2E] ++ tld) with (0x40 :: (dom ++ 0x2E :: tld)).
    rewrite filter_app, (class_no_at emailLocal loc) by auto.
    rewrite filter_cons_True by done.
    rewrite filter_app, (class_no_at emailDomain dom) by auto.
    rewrite filter_cons_False by done.
    by rewrite (class_no_at letters tld) by auto.
  - intros Hin%ValidationTheory.Contains_singleton. congruence.
Qed.

Lemma ValidateEmail_one_at_witness :
  length (filter (λ r : rune, r = 0x40) [0x61; 0x40; 0x62; 0x2E; 0x63; 0x6F]) = 1%nat.
Proof.
  refine (proj1 (ValidateEmail_one_at [0x61; 0x40; 0x62; 0x2E; 0x63; 0x6F] _)).
  reflexivity.
Defined.

(** X23: the pattern that [ValidateUsername] compiles matches exactly
    the non-empty strings of ASCII letters, digits, underscores and
    hyphens, which is how the validator's use of it is written above. *)
Theorem validUsername_pattern (s : text) :
  MatchString validUsername s = validUsername_MatchString s.
Proof.
  apply Bool.eq_true_iff_eq.
  rewrite MatchString_matches. unfold validUsername.
  rewrite matches_plus_class. unfold validUsername_MatchString.
  assert (Hcls : ∀ r, inClass (alnum ++ [(0x5F, 0x5F); (0x2D, 0x2D)]) r
                      = usernameChar r).
  { intros r. unfold inClass, usernameChar. simpl.
    apply Bool.eq_true_iff_eq. rewrite !orb_true_iff, !andb_true_iff.
    rewrite !Z.leb_le, !Z.eqb_eq. lia. }
  destruct s as [|r s].
  - split; [by intros [? _]|done].
  - rewrite forallb_forall, Forall_forall.
    split.
    + intros [_ H] x Hx. rewrite <- Hcls. apply H. by apply list_elem_of_In.
    + intros H. split; [done|]. intros x Hx. rewrite Hcls. apply H.
      by apply list_elem_of_In.
Qed.

(** Addresses the pattern lets through and stops. *)
Example ValidateEmail_examples :
  (* a@b.co *)
  (ValidateEmail [0x61; 0x40; 0x62; 0x2E; 0x63; 0x6F]).1 = true ∧
  (* a@b..co: an empty label in the domain *)
  (ValidateEmail [0x61; 0x40; 0x62; 0x2E; 0x2E; 0x63; 0x6F]).1 = true ∧
  (* a@b.c: a last label of one letter *)
  (ValidateEmail [0x61; 0x40; 0x62; 0x2E; 0x63]).1 = false ∧
  (* a@b: no dot *)
  (ValidateEmail [0x61; 0x40; 0x62]).1 = false.
Proof. by vm_compute. Qed.

End RegexTheory.

(** ** The vote routes: router, gate, handler and service together *)

Module HandlersTheory.

Import GoStrings SessionService AuthMiddleware Handlers.

Ltac run_monad := unfold mbind, M_bind, ret, mret, M_ret.

(** *** Strings *)









(** *** Atoi *)




(** *** Splitting a path *)






(** *** The gate *)

Lemma RequireAuth_cases now (r : Request) (c : Conn) :
  db (RequireAuth now r c).2 = db c ∧
  ((RequireAuth now r c).1 = HttpRedirect "/login" 303 ∨
   ∃ usr, (RequireAuth now r c).1 = NextServeHTTP (Some usr) ∧
          ID usr ∈ dom (users (db c))).
Proof.
  unfold RequireAuth.
  destruct (Request_Cookie r "session_token") as [e|cookie];
    [split; [done|by left]|].
  run_monad.
  pose proof (AuthTheory.GetUserByToken_reads now (Value cookie) c) as Hdb.
  destruct (AuthTheory.GetUserByToken_result now (Value cookie) c)
    as [[usr Hok]|[err Herr]].
  - pose proof (AuthTheory.GetUserByToken_resolves _ _ _ _ Hok)
      as (s & row & _ & _ & Hrow & Hid & _).
    destruct (GetUserByToken now (Value cookie) c) as [[u e] c1].
    simpl in *. injection Hok as -> ->. simpl. split; [done|].
    right. exists usr. split; [done|]. rewrite Hid. apply elem_of_dom. eauto.
  - destruct (GetUserByToken now (Value cookie) c) as [[u e] c1].
    simpl in *. injection Herr as -> ->. simpl. split; [done|by left].
Qed.


Lemma OptionalAuth_cases now (r : Request) (c : Conn) :
  db (OptionalAuth now r c).2 = db c ∧
  ∃ user, (OptionalAuth now r c).1 = NextServeHTTP user ∧
          ((RequireAuth now r c).1 = HttpRedirect "/login" 303 → user = None).
Proof.
  unfold OptionalAuth, RequireAuth.
  destruct (Request_Cookie r "session_token") as [e|cookie];
    [split; [done|by eexists]|].
  run_monad.
  pose proof (AuthTheory.GetUserByToken_reads now (Value cookie) c) as Hdb.
  destruct (GetUserByToken now (Value cookie) c) as [[u [e|]] c1]; simpl in *;
    (split; [done|]); eexists; (split; [done|]); done.
Qed.

(** *** The services behind the handlers *)

(** For a user who has a row, a vote fails only on a missing target. *)
Lemma vote_outcome now (U T : Z) (c : Conn) :
  U ∈ dom (users (db c)) →
  (LikesService.LikePost now U T c).1
    = (if decide (T ∈ posts (db c)) then None else Some (ErrNew "post not found")) ∧
  (LikesService.DislikePost now U T c).1
    = (if decide (T ∈ posts (db c)) then None else Some (ErrNew "post not found")) ∧
  (LikesService.LikeComment now U T c).1
    = (if decide (T ∈ comments (db c)) then None
       else Some (ErrNew "comment not found")) ∧
  (LikesService.DislikeComment now U T c).1
    = (if decide (T ∈ comments (db c)) then None
       else Some (ErrNew "comment not found")).
Proof.
  intros HU. repeat split; LikesTheory.run_method.
  all: case_decide; simpl; [|done].
  all: destruct (_ !! (U, T)) as [[|]|] eqn:Hm; simpl; try done.
  all: rewrite decide_False by (rewrite ?Hm; by intros [? ?]).
  all: by rewrite decide_True.
Qed.


(** *** The handlers *)

Ltac run_handler :=
  unfold Handlers.LikePost, Handlers.DislikePost, Handlers.LikeComment,
         Handlers.DislikeComment, MethodPost.

Lemma commentVoteArgs_400 (expected : string) (r : HttpRequest) page :
  commentVoteArgs expected r = inl page →
  ∃ message, page = RenderError 400 "Bad Request" message.
Proof.
  unfold commentVoteArgs. repeat case_match; intros [= <-]; by eexists.
Qed.

(** A handler writes nothing for a request that is no POST or comes
    without a user. *)
Lemma handlers_guard now (user : option User) (r : HttpRequest) (c : Conn) :
  Method r ≠ "POST" ∨ user = None →
  db (Handlers.LikePost now user r c).2 = db c ∧
  db (Handlers.DislikePost now user r c).2 = db c ∧
  db (Handlers.LikeComment now user r c).2 = db c ∧
  db (Handlers.DislikeComment now user r c).2 = db c.
Proof.
  intros [Hm | ->]; run_handler.
  - apply String.eqb_neq in Hm. by rewrite Hm.
  - by destruct (negb _).
Qed.

(** For a user who has a row a handler has no reason for the page 500. *)
Lemma handlers_never_500 now (usr : User) (r : HttpRequest) (c : Conn) title message :
  ID usr ∈ dom (users (db c)) →
  (Handlers.LikePost now (Some usr) r c).1 ≠ RenderError 500 title message ∧
  (Handlers.DislikePost now (Some usr) r c).1 ≠ RenderError 500 title message ∧
  (Handlers.LikeComment now (Some usr) r c).1 ≠ RenderError 500 title message ∧
  (Handlers.DislikeComment now (Some usr) r c).1 ≠ RenderError 500 title message.
Proof.
  intros HU. repeat split; run_handler.
  all: destruct (negb _); [done|].
  1, 2: destruct (_ <? _)%nat; [done|]; destruct (Atoi _) as [e|T]; [done|].
  3, 4: destruct (commentVoteArgs _ r) as [page|[T pid]] eqn:Hargs;
          [by apply commentVoteArgs_400 in Hargs as [? ->]|].
  all: run_monad; destruct (vote_outcome now (ID usr) T c HU) as (H1 & H2 & H3 & H4).
  - clear H2 H3 H4. destruct (LikesService.LikePost now (ID usr) T c) as [err c2].
    simpl in H1. rewrite H1. by case_decide.
  - clear H1 H3 H4. destruct (LikesService.DislikePost now (ID usr) T c) as [err c2].
    simpl in H2. rewrite H2. by case_decide.
  - clear H1 H2 H4. destruct (LikesService.LikeComment now (ID usr) T c) as [err c2].
    simpl in H3. rewrite H3. by case_decide.
  - clear H1 H2 H3. destruct (LikesService.DislikeComment now (ID usr) T c) as [err c2].
    simpl in H4. rewrite H4. by case_decide.
Qed.

(** *** The gate in front of a handler *)

Lemma wrapRequireAuth_cases now next (r : HttpRequest) (c : Conn) :
  ((RequireAuth now (Base r) c).1 = HttpRedirect "/login" 303 ∧
   (wrapRequireAuth now next r c).1 = Redirect "/login" 303 ∧
   db (wrapRequireAuth now next r c).2 = db c) ∨
  (∃ usr c1,
     (RequireAuth now (Base r) c).1 = NextServeHTTP (Some usr) ∧
     ID usr ∈ dom (users (db c1)) ∧ db c1 = db c ∧
     wrapRequireAuth now next r c = next (Some usr) r c1).
Proof.
  unfold wrapRequireAuth. run_monad.
  destruct (RequireAuth_cases now (Base r) c) as [Hdb [Hred | (usr & Hok & HU)]];
    destruct (RequireAuth now (Base r) c) as [o c1]; simpl in *; subst o.
  - by left.
  - right. exists usr, c1. by rewrite Hdb.
Qed.

Lemma wrapOptionalAuth_cases now next (r : HttpRequest) (c : Conn) :
  ∃ user c1,
    db c1 = db c ∧ wrapOptionalAuth now next r c = next user r c1 ∧
    ((RequireAuth now (Base r) c).1 = HttpRedirect "/login" 303 → user = None).
Proof.
  unfold wrapOptionalAuth. run_monad.
  destruct (OptionalAuth_cases now (Base r) c) as [Hdb (user & Hok & Hnone)].
  destruct (OptionalAuth now (Base r) c) as [o c1]; simpl in *; subst o.
  by exists user, c1.
Qed.

(** *** The routers *)

Ltac run_router :=
  unfold handlePostRoutes, handleCommentRoutes;
  repeat match goal with
         | |- context [if ?b then _ else _] =>
             lazymatch b with
             | context [Path] => destruct b
             end
         end.

(** X24: a request without a session that resolves gets no further than
    the gate, whatever its method and path.  The post router answers with
    the redirect to [/login], or hands it to [PostView] with no user; the
    comment router answers with the redirect or with a page 400.  Neither
    has changed a table by then: when the router answers, or at the moment
    it hands the request to [PostView], whose own writes are not part of
    the model. *)
Theorem vote_routes_without_session now (r : HttpRequest) (c : Conn) :
  (RequireAuth now (Base r) c).1 = HttpRedirect "/login" 303 →
  ((handlePostRoutes now r c).1 = Redirect "/login" 303 ∨
   (handlePostRoutes now r c).1 = Page "PostView" None) ∧
  ((handleCommentRoutes now r c).1 = Redirect "/login" 303 ∨
   ∃ message,
     (handleCommentRoutes now r c).1 = RenderError 400 "Bad Request" message) ∧
  db (handlePostRoutes now r c).2 = db c ∧
  db (handleCommentRoutes now r c).2 = db c.
Proof.
  intros Hred.
  assert (Hgate : ∀ next,
    (wrapRequireAuth now next r c).1 = Redirect "/login" 303 ∧
    db (wrapRequireAuth now next r c).2 = db c).
  { intros next.
    destruct (wrapRequireAuth_cases now next r c)
      as [(_ & ? & ?) | (usr & c1 & Hok & _)]; [done|congruence]. }
  destruct (wrapOptionalAuth_cases now (λ user _, ret (Page "PostView" user)) r c)
    as (user & c1 & Hdb & Hrun & Hnone).
  specialize (Hnone Hred) as ->.
  repeat split; run_router; rewrite ?Hrun; simpl;
    try (by left; apply Hgate); try (by apply Hgate); try (by right; eexists);
    try done; by right.
Qed.

(** A request with no cookie at all. *)
Lemma vote_routes_without_session_witness :
  let r := mkHttpRequest "POST" (mkRequest "/post/1/like" []) [] in
  (handlePostRoutes 20 r Sample.conn0).1 = Redirect "/login" 303 ∧
  db (handlePostRoutes 20 r Sample.conn0).2 = db Sample.conn0.
Proof.
  intros r.
  destruct (vote_routes_without_session 20 r Sample.conn0) as (H1 & _ & H2 & _);
    [reflexivity|].
  split; [|exact H2]. by destruct H1 as [H1|H1]; [|vm_compute in H1].
Defined.

(** X25: no vote without POST.  A request with another method changes no
    table, also for a user who is logged in: it is answered with the
    redirect to [/login], with a page 405 or 400, or it is handed to
    [PostView] or [CreateComment]. *)
Theorem vote_routes_other_method now (r : HttpRequest) (c : Conn) :
  Method r ≠ "POST" →
  let answers (res : Response) :=
    res = Redirect "/login" 303 ∨
    res = RenderError 405 "Method Not Allowed"
            "This endpoint only accepts POST requests." ∨
    (∃ message, res = RenderError 400 "Bad Request" message) ∨
    (∃ handler user, res = Page handler user) in
  answers (handlePostRoutes now r c).1 ∧
  answers (handleCommentRoutes now r c).1 ∧
  db (handlePostRoutes now r c).2 = db c ∧
  db (handleCommentRoutes now r c).2 = db c.
Proof.
  intros Hm answers. subst answers.
  assert (Hgate : ∀ next,
    (∀ usr c1, (next (Some usr) r c1).1
               = RenderError 405 "Method Not Allowed"
                   "This endpoint only accepts POST requests." ∧
               db (next (Some usr) r c1).2 = db c1) →
    ((wrapRequireAuth now next r c).1 = Redirect "/login" 303 ∨
     (wrapRequireAuth now next r c).1
       = RenderError 405 "Method Not Allowed"
           "This endpoint only accepts POST requests.") ∧
    db (wrapRequireAuth now next r c).2 = db c).
  { intros next Hnext.
    destruct (wrapRequireAuth_cases now next r c)
      as [(_ & ? & ?) | (usr & c1 & _ & _ & Hdb & ->)]; [by auto|].
    destruct (Hnext usr c1) as [-> ->]. auto. }
  assert (H405 : ∀ usr c1,
    ((Handlers.LikePost now (Some usr) r c1).1
       = RenderError 405 "Method Not Allowed"
           "This endpoint only accepts POST requests." ∧
     db (Handlers.LikePost now (Some usr) r c1).2 = db c1) ∧
    ((Handlers.DislikePost now (Some usr) r c1).1
       = RenderError 405 "Method Not Allowed"
           "This endpoint only accepts POST requests." ∧
     db (Handlers.DislikePost now (Some usr) r c1).2 = db c1) ∧
    ((Handlers.LikeComment now (Some usr) r c1).1
       = RenderError 405 "Method Not Allowed"
           "This endpoint only accepts POST requests." ∧
     db (Handlers.LikeComment now (Some usr) r c1).2 = db c1) ∧
    ((Handlers.DislikeComment now (Some usr) r c1).1
       = RenderError 405 "Method Not Allowed"
           "This endpoint only accepts POST requests." ∧
     db (Handlers.DislikeComment now (Some usr) r c1).2 = db c1)).
  { intros usr c1. run_handler. apply String.eqb_neq in Hm. by rewrite Hm. }
  destruct (Hgate (Handlers.LikePost now)) as [Ha1 Hb1]; [intros; apply H405|].
  destruct (Hgate (Handlers.DislikePost now)) as [Ha2 Hb2]; [intros; apply H405|].
  destruct (Hgate (Handlers.LikeComment now)) as [Ha3 Hb3]; [intros; apply H405|].
  destruct (Hgate (Handlers.DislikeComment now)) as [Ha4 Hb4]; [intros; apply H405|].
  destruct (wrapOptionalAuth_cases now (λ user _, ret (Page "PostView" user)) r c)
    as (user & c1 & Hdb & Hrun & _).
  destruct (wrapRequireAuth_cases now (λ user _, ret (Page "CreateComment" user)) r c)
    as [(_ & Hc1 & Hc2) | (usr & c2 & _ & _ & Hdb2 & Hrun2)].
  all: repeat split; run_router; rewrite ?Hrun, ?Hrun2; simpl; try done;
    try tauto; try (by right; right; left; eexists);
    try (by right; right; right; eexists _, _).
Qed.

(** User 2, logged in, sends GET /post/1/like: page 405, no vote. *)
Lemma vote_routes_other_method_witness :
  let c := (CreateSession Sample.almaty 10 (inr "tokA") 2 Sample.conn0).2 in
  let r := mkHttpRequest "GET"
             (mkRequest "/post/1/like" [mkCookie "session_token" "tokA"]) [] in
  db (handlePostRoutes 20 r c).2 = db c.
Proof.
  intros c r.
  refine (proj1 (proj2 (proj2 (vote_routes_other_method 20 r c _)))).
  discriminate.
Defined.

(** X26: a request that is served alone, with no statement of another
    request between its own, is never answered with the page 500 by the
    vote routes for a constraint of the schema.  The handler gives the
    page for an error of the service other than a missing target; the
    gate has found the row of the user, the service has found the row of
    the target and has read the vote, so the statement it then sends
    breaks neither the UNIQUE constraint nor a FOREIGN KEY.  (Between two
    requests that interleave nothing is proved: the read and the write of
    a vote are separate statements, outside any transaction.) *)
Theorem vote_routes_never_500 now (r : HttpRequest) (c : Conn) title message :
  (handlePostRoutes now r c).1 ≠ RenderError 500 title message ∧
  (handleCommentRoutes now r c).1 ≠ RenderError 500 title message.
Proof.
  assert (Hgate : ∀ next,
    (∀ usr c1, ID usr ∈ dom (users (db c1)) →
               (next (Some usr) r c1).1 ≠ RenderError 500 title message) →
    (wrapRequireAuth now next r c).1 ≠ RenderError 500 title message).
  { intros next Hnext.
    destruct (wrapRequireAuth_cases now next r c)
      as [(_ & -> & _) | (usr & c1 & _ & HU & _ & ->)]; [done|by apply Hnext]. }
  destruct (wrapOptionalAuth_cases now (λ user _, ret (Page "PostView" user)) r c)
    as (user & c1 & _ & Hrun & _).
  split; run_router; rewrite ?Hrun; simpl; try done; apply Hgate; try done;
    intros usr c2 HU; by apply handlers_never_500.
Qed.

(** *** A vote from the browser to the table *)












(** *** Logout *)

(** X29: logout from the browser.  A GET or POST of [/logout] is answered
    with the redirect to the home page and the cleared cookie, whether or
    not the request carried a session; afterwards the cookie of the
    request no longer passes the gate, at any time, while every token
    other than that of the cookie resolves as before. *)
Theorem Logout_ends_session now (r : HttpRequest) (c : Conn) :
  Method r = "GET" ∨ Method r = "POST" →
  let c' := (Logout now r c).2 in
  (Logout now r c).1
    = (Some (mkCookie "session_token" EmptyString), Redirect "/" 303) ∧
  (∀ now', (RequireAuth now' (Base r) c').1 = HttpRedirect "/login" 303) ∧
  (∀ now' tok,
     (∀ cookie, Request_Cookie (Base r) "session_token" = inr cookie →
                Value cookie ≠ tok) →
     (GetUserByToken now' tok c').1 = (GetUserByToken now' tok c).1).
Proof.
  intros Hm c'. subst c'. unfold Logout.
  replace (negb (String.eqb (Method r) MethodGet) &&
           negb (String.eqb (Method r) MethodPost)) with false
    by (by destruct Hm as [-> | ->]).
  run_monad.
  destruct (Request_Cookie (Base r) "session_token") as [e|cookie] eqn:Hcookie.
  - simpl. split; [done|split; [|done]].
    intros now'. unfold RequireAuth. by rewrite Hcookie.
  - destruct (DeleteSession now (Value cookie) c) as [e c1] eqn:Hdel.
    assert (Hc1 : db c1 = set_sessions (delete (Value cookie) (sessions (db c))) (db c)).
    { unfold DeleteSession, Exec in Hdel. simpl in Hdel. by injection Hdel as <- <-. }
    simpl. split; [done|split].
    + intros now'. unfold RequireAuth. rewrite Hcookie. run_monad.
      rewrite SessionTheory.GetUserByToken_absent; [done|].
      rewrite Hc1. simpl. apply lookup_delete_eq.
    + intros now' tok Hne. apply SessionMore.GetUserByToken_congr.
      * rewrite Hc1. simpl. apply lookup_delete_ne. by apply Hne.
      * by rewrite Hc1.
Qed.

(** User 2 logs in, logs out with GET, and the cookie is of no use. *)
Lemma Logout_ends_session_witness :
  let c := (CreateSession Sample.almaty 10 (inr "tokA") 2 Sample.conn0).2 in
  let r := mkHttpRequest "GET"
             (mkRequest "/logout" [mkCookie "session_token" "tokA"]) [] in
  (RequireAuth 20 (Base r) c).1 ≠ HttpRedirect "/login" 303 ∧
  (RequireAuth 20 (Base r) (Logout 15 r c).2).1 = HttpRedirect "/login" 303.
Proof.
  intros c r. split; [by vm_compute|].
  refine (proj1 (proj2 (Logout_ends_session 15 r c _)) 20). by left.
Defined.

End HandlersTheory.
